(** * The frame streamers of [ote_sdk.usecases.exportable_code.streamer]

    A shallow embedding of [streamer.py]: the four frame sources
    ([ImageStreamer], [DirStreamer], [VideoStreamer], [CameraStreamer]),
    the selector [get_streamer] and the process/queue wrapper
    [ThreadedStreamer].

    Conventions of the embedding.
    - A numpy array is an object: it lives in a heap and Python values
      hold references to it.  Every [cv2.imread], [cap.read] and
      [cv2.cvtColor] allocates a new array.
    - The file system, the decoder and the camera devices are the record
      [World]; the code only ever asks it questions.
    - A generator is a transition function: one call of [next] runs one
      turn of the generator's loop and says whether it yielded, went
      round without yielding, or returned.
    - [str] values are byte strings (UTF-8).  A locator is a [str] or an
      [int]: [get_streamer] is written over any type of locator and over
      what the three classes and [int] do on it; on a [str] that is the
      code of the classes, on an [int] it is the environment's.
    - [os.listdir] is taken to succeed on what [os.path.isdir] accepts. *)

From Stdlib Require Import List String Ascii Bool Arith ZArith NArith Lia.
From Stdlib Require Import DecimalString.
From Stdlib Require Import Sorting.Mergesort Sorting.Sorted Sorting.Permutation.
From Stdlib Require Import Orders Relations.Relation_Operators.
Import ListNotations.
Local Open Scope string_scope.
Local Open Scope list_scope.
Local Open Scope nat_scope.

(** ** Arrays, heap and the allocation monad *)

(** One pixel: three [uint8] channels in storage order. *)
Record Pixel := mkPixel { ch0 : N; ch1 : N; ch2 : N }.

(** The contents of an array of shape height x width x 3. *)
Definition Frame := list (list Pixel).

(** A reference to a numpy array. *)
Definition ndarray := nat.

(** The arrays allocated so far; a reference is an index. *)
Definition Heap := list Frame.

Definition M (A : Type) : Type := Heap -> A * Heap.

Definition ret {A} (a : A) : M A := fun h => (a, h).

Definition bind {A B} (m : M A) (k : A -> M B) : M B :=
  fun h => let (a, h1) := m h in k a h1.

Notation "x <- m ;; k" := (bind m (fun x => k))
  (at level 61, m at next level, right associativity).

Definition new_array (img : Frame) : M ndarray :=
  fun h => (List.length h, h ++ [img]).

(** The contents behind a reference (the empty array when dangling). *)
Definition deref (h : Heap) (r : ndarray) : Frame := nth r h [].

(** ** The wrapped library *)

(** [cv2.COLOR_BGR2RGB] on the contents: swap the first and third channel. *)
Definition swap_channels (p : Pixel) : Pixel :=
  mkPixel (ch2 p) (ch1 p) (ch0 p).

Definition bgr2rgb (img : Frame) : Frame := map (map swap_channels) img.

(** What the code can observe of its environment. *)
Record World := {
  (** [os.path.isfile] *)
  isfile : string -> bool;
  (** [os.path.isdir] *)
  isdir : string -> bool;
  (** [os.listdir], in the order the system returns the entries *)
  listdir : string -> list string;
  (** what [cv2.imread(_, IMREAD_COLOR)] decodes, [None] when it cannot *)
  imread_data : string -> option Frame;
  (** the frames of the stream [cap.open] opens, [None] when it reports
      failure *)
  video_data : string -> option (list Frame);
  (** the k-th frame a camera device delivers, [None] when its read fails *)
  camera_data : Z -> nat -> option Frame;
  (** whether [cv2.VideoCapture(index)] raises [cv2.error] instead of
      handing back a capture: it does on an index it cannot take as a C
      [int] *)
  index_rejected : Z -> bool;
  (** [int(s)] on a [str] with characters beyond ASCII or longer than
      4300 characters, where the result hangs on the Unicode tables and
      the digit limit of the interpreter; [None] stands for [ValueError] *)
  int_beyond : string -> option Z
}.

(** [cv2.imread]: a new array, or [None]. *)
Definition cv2_imread (w : World) (filename : string) : M (option ndarray) :=
  match imread_data w filename with
  | Some img => r <- new_array img ;; ret (Some r)
  | None => ret None
  end.

(** [cv2.cvtColor(image, cv2.COLOR_BGR2RGB)]: a new array. *)
Definition cv2_cvtColor (image : ndarray) : M ndarray :=
  fun h => new_array (bgr2rgb (deref h image)) h.

(** A [cv2.VideoCapture] on a file: the decodable frames and the position
    of the next one. *)
Record VideoCapture := {
  cap_frames : list Frame;
  cap_pos : nat
}.

(** [cap.read()]: [Some] array and the advanced capture on success. *)
Definition cap_read (cap : VideoCapture) : M (option ndarray * VideoCapture) :=
  match nth_error (cap_frames cap) (cap_pos cap) with
  | Some img =>
      r <- new_array img ;;
      ret (Some r, {| cap_frames := cap_frames cap; cap_pos := S (cap_pos cap) |})
  | None => ret (None, cap)
  end.

(** [cap.set(cv2.CAP_PROP_POS_FRAMES, n)] *)
Definition cap_set_pos (cap : VideoCapture) (n : nat) : VideoCapture :=
  {| cap_frames := cap_frames cap; cap_pos := n |}.

(** A [cv2.VideoCapture] on a device index. *)
Record DeviceCapture := {
  dev_index : Z;
  dev_pos : nat;
  dev_released : bool
}.

Definition dev_read (w : World) (d : DeviceCapture)
  : M (option ndarray * DeviceCapture) :=
  if dev_released d then ret (None, d)
  else match camera_data w (dev_index d) (dev_pos d) with
       | Some img =>
           r <- new_array img ;;
           ret (Some r, {| dev_index := dev_index d; dev_pos := S (dev_pos d);
                           dev_released := false |})
       | None => ret (None, d)
       end.

Definition dev_release (d : DeviceCapture) : DeviceCapture :=
  {| dev_index := dev_index d; dev_pos := dev_pos d; dev_released := true |}.

(** ** Python built-ins the module calls *)

(** [os.path.join(a, b)] of [posixpath]. *)
Definition path_join (a b : string) : string :=
  match b with
  | String "/" _ => b
  | _ =>
      if (a =? "")%string then b
      else match get (String.length a - 1) a with
           | Some "/"%char => (a ++ b)%string
           | _ => (a ++ "/" ++ b)%string
           end
  end.

Module StrOrder <: TotalLeBool.
Definition t := string.
Definition leb := String.leb.
Theorem leb_total : forall a1 a2, leb a1 a2 = true \/ leb a2 a1 = true.
Proof. exact String.leb_total. Qed.
End StrOrder.

Module StrSort := Sort StrOrder.

(** [sorted] on a list of [str]. *)
Definition sorted (l : list string) : list string := StrSort.sort l.

(** The white space [int] skips around an ASCII literal: tab, line feed,
    vertical tab, form feed, carriage return and space. *)
Definition is_space (c : ascii) : bool :=
  let n := nat_of_ascii c in
  ((9 <=? n) && (n <=? 13)) || (n =? 32).

Definition is_digit (c : ascii) : bool :=
  let n := nat_of_ascii c in (48 <=? n) && (n <=? 57).

Fixpoint lstrip (s : string) : string :=
  match s with
  | String c rest => if is_space c then lstrip rest else s
  | EmptyString => s
  end.

Fixpoint rev_string (acc s : string) : string :=
  match s with
  | String c rest => rev_string (String c acc) rest
  | EmptyString => acc
  end.

Definition strip (s : string) : string :=
  rev_string "" (lstrip (rev_string "" (lstrip s))).

(** Decimal digits with single underscores between digits. *)
Fixpoint digits_value (acc : Z) (after_digit : bool) (s : string) : option Z :=
  match s with
  | EmptyString => if after_digit then Some acc else None
  | String c rest =>
      if is_digit c then
        digits_value (10 * acc + Z.of_nat (nat_of_ascii c - 48))%Z true rest
      else if (Ascii.eqb c "_" && after_digit)%bool then
        digits_value acc false rest
      else None
  end.

(** [int(s)] for an ASCII [str] within the digit limit: white space
    around, a sign, digits and single underscores between digits; [None]
    stands for [ValueError]. *)
Definition py_int (s : string) : option Z :=
  match strip s with
  | String "-" rest => option_map Z.opp (digits_value 0 false rest)
  | String "+" rest => digits_value 0 false rest
  | t => digits_value 0 false t
  end.

Fixpoint is_ascii (s : string) : bool :=
  match s with
  | EmptyString => true
  | String c rest => (nat_of_ascii c <? 128) && is_ascii rest
  end.

(** [int(s)] for any [str]. *)
Definition int_str (w : World) (s : string) : option Z :=
  if is_ascii s && (String.length s <=? 4300) then py_int s
  else int_beyond w s.

(** ** Exceptions and media types *)

(** The two exception classes of the module, with their [message]. *)
Inductive StreamerError :=
| InvalidInput (message : string)
| OpenError (message : string).

Inductive result (A : Type) :=
| Ok (a : A)
| Raise (e : StreamerError).
Arguments Ok {A} a.
Arguments Raise {A} e.

(** The exceptions of other modules that pass through this one. *)
Inductive Exception :=
| ValueError (literal : string)
| Cv2Error
| OtherException (name : string).

(** What a call of a constructor comes to: an object, one of the
    module's two exceptions, or another exception. *)
Inductive Attempt (A : Type) :=
| Constructed (a : A)
| Refused (e : StreamerError)
| Crashed (e : Exception).
Arguments Constructed {A} a.
Arguments Refused {A} e.
Arguments Crashed {A} e.

Inductive MediaType := IMAGE | DIR | VIDEO | CAMERA.

(** ** Generators *)

(** One turn of a generator body. *)
Inductive Step (S : Type) :=
| Yield (frame : ndarray) (s : S)
| Again (s : S)
| Return (s : S).
Arguments Yield {S} frame s.
Arguments Again {S} s.
Arguments Return {S} s.

(** What a consumer has seen after some turns: the references it was
    handed, and what each array held when it was handed over. *)
Record Run (S : Type) := mkRun {
  yields : list ndarray;
  frames : list Frame;
  state : S;
  finished : bool
}.
Arguments mkRun {S} yields frames state finished.
Arguments yields {S} r.
Arguments frames {S} r.
Arguments state {S} r.
Arguments finished {S} r.

Definition peek (r : ndarray) : M Frame := fun h => (deref h r, h).

(** Drive a generator for at most [fuel] turns. *)
Fixpoint run {S} (next : S -> M (Step S)) (fuel : nat) (s : S) : M (Run S) :=
  match fuel with
  | O => ret (mkRun [] [] s false)
  | S fuel' =>
      st <- next s ;;
      match st with
      | Yield frame s' =>
          seen <- peek frame ;;
          r <- run next fuel' s' ;;
          ret (mkRun (frame :: yields r) (seen :: frames r) (state r) (finished r))
      | Again s' => run next fuel' s'
      | Return s' => ret (mkRun [] [] s' true)
      end
  end.

(** ** ImageStreamer *)

Module ImageStreamer.

Record t := {
  loop : bool;
  media_type : MediaType;
  image : ndarray
}.

(** [ImageStreamer.__init__] *)
Definition init (w : World) (input_path : string) (loop : bool)
  : M (result t) :=
  if negb (isfile w input_path) then
    ret (Raise (InvalidInput ("Can't find the image by " ++ input_path)%string))
  else
    image <- cv2_imread w input_path ;;
    match image with
    | None =>
        ret (Raise (OpenError ("Can't open the image from " ++ input_path)%string))
    | Some image =>
        image <- cv2_cvtColor image ;;
        ret (Ok {| loop := loop; media_type := IMAGE; image := image |})
    end.

(** Where the generator of [__iter__] stands. *)
Inductive pc := Entry | Yielded.

Definition gen : Type := t * pc.

(** [ImageStreamer.__iter__]: a new generator on the object. *)
Definition iter (self : t) : gen := (self, Entry).

Definition next (g : gen) : M (Step gen) :=
  let (self, at_) := g in
  match at_ with
  | Entry => ret (Yield (image self) (self, Yielded))
  | Yielded =>
      if negb (loop self) then ret (Return g)
      else ret (Yield (image self) (self, Yielded))
  end.

Definition get_type (self : t) : MediaType := IMAGE.

End ImageStreamer.

(** ** DirStreamer *)

Module DirStreamer.

Record t := {
  loop : bool;
  media_type : MediaType;
  dir : string;
  names : list string;
  file_id : nat
}.

(** The [for name in self.names] of [__init__]: [true] at the first
    entry that decodes. *)
Fixpoint any_readable (w : World) (dir : string) (names : list string)
  : M bool :=
  match names with
  | [] => ret false
  | name :: rest =>
      let filename := path_join dir name in
      image <- cv2_imread w filename ;;
      match image with
      | Some _ => ret true
      | None => any_readable w dir rest
      end
  end.

(** [DirStreamer.__init__] *)
Definition init (w : World) (input_path : string) (loop : bool)
  : M (result t) :=
  if negb (isdir w input_path) then
    ret (Raise (InvalidInput ("Can't find the dir by " ++ input_path)%string))
  else
    let names := sorted (listdir w input_path) in
    match names with
    | [] =>
        ret (Raise (OpenError ("The dir " ++ input_path ++ " is empty")%string))
    | _ =>
        found <- any_readable w input_path names ;;
        if found then
          ret (Ok {| loop := loop; media_type := DIR; dir := input_path;
                     names := names; file_id := 0 |})
        else
          ret (Raise (OpenError
                 ("Can't read the first image from " ++ input_path)%string))
    end.

Definition set_file_id (self : t) (n : nat) : t :=
  {| loop := loop self; media_type := media_type self; dir := dir self;
     names := names self; file_id := n |}.

Definition gen : Type := t.

(** [DirStreamer.__iter__]: the generator keeps nothing of its own, its
    cursor is [self.file_id]. *)
Definition iter (self : t) : gen := self.

(** One turn of the [while] loop, reading files in the world [w]. *)
Definition next (w : World) (self : gen) : M (Step gen) :=
  if file_id self <? List.length (names self) then
    let filename := path_join (dir self) (nth (file_id self) (names self) "") in
    image <- cv2_imread w filename ;;
    let self' :=
      if file_id self <? List.length (names self) - 1 then
        set_file_id self (file_id self + 1)
      else
        set_file_id self (if negb (loop self) then file_id self + 1 else 0) in
    match image with
    | Some image =>
        frame <- cv2_cvtColor image ;;
        ret (Yield frame self')
    | None => ret (Again self')
    end
  else ret (Return self).

Definition get_type (self : t) : MediaType := DIR.

End DirStreamer.

(** ** VideoStreamer *)

Module VideoStreamer.

Record t := {
  loop : bool;
  media_type : MediaType;
  cap : VideoCapture
}.

(** [VideoStreamer.__init__] *)
Definition init (w : World) (input_path : string) (loop : bool)
  : M (result t) :=
  match video_data w input_path with
  | Some frames =>
      ret (Ok {| loop := loop; media_type := VIDEO;
                 cap := {| cap_frames := frames; cap_pos := 0 |} |})
  | None =>
      ret (Raise (InvalidInput ("Can't open the video from " ++ input_path)%string))
  end.

Definition set_cap (self : t) (c : VideoCapture) : t :=
  {| loop := loop self; media_type := media_type self; cap := c |}.

Definition gen : Type := t.

Definition iter (self : t) : gen := self.

(** One turn of the [while True] loop of [__iter__]. *)
Definition next (self : gen) : M (Step gen) :=
  rd <- cap_read (cap self) ;;
  let (image, cap') := rd in
  match image with
  | Some image =>
      frame <- cv2_cvtColor image ;;
      ret (Yield frame (set_cap self cap'))
  | None =>
      if loop self then ret (Again (set_cap self (cap_set_pos cap' 0)))
      else ret (Return (set_cap self cap'))
  end.

Definition get_type (self : t) : MediaType := VIDEO.

End VideoStreamer.

(** ** CameraStreamer *)

Module CameraStreamer.

Record t := {
  media_type : MediaType;
  camera_device : Z;
  stream : DeviceCapture
}.

(** [CameraStreamer.__init__]: [cv2.VideoCapture(index)] hands back a
    capture object whether or not the device opened, unless it cannot
    take the index, which is a [cv2.error]; neither of the module's
    exceptions is raised. *)
Definition init (w : World) (camera_device : option Z) : M (Attempt t) :=
  let device := match camera_device with None => 0%Z | Some d => d end in
  if index_rejected w device then ret (Crashed Cv2Error)
  else
    ret (Constructed
           {| media_type := CAMERA; camera_device := device;
              stream := {| dev_index := device; dev_pos := 0;
                           dev_released := false |} |}).

Definition set_stream (self : t) (d : DeviceCapture) : t :=
  {| media_type := media_type self; camera_device := camera_device self;
     stream := d |}.

Definition gen : Type := t.

Definition iter (self : t) : gen := self.

(** One turn of the [while True] loop of [__iter__]; on [break] the
    stream is released and the generator returns. *)
Definition next (w : World) (self : gen) : M (Step gen) :=
  rd <- dev_read w (stream self) ;;
  let (frame, stream') := rd in
  match frame with
  | None => ret (Return (set_stream self (dev_release stream')))
  | Some frame =>
      frame <- cv2_cvtColor frame ;;
      ret (Yield frame (set_stream self stream'))
  end.

Definition get_type (self : t) : MediaType := CAMERA.

End CameraStreamer.

(** The object [CameraStreamer(index)] constructs. *)
Definition on_device (index : Z) : CameraStreamer.t :=
  {| CameraStreamer.media_type := CAMERA;
     CameraStreamer.camera_device := index;
     CameraStreamer.stream :=
       {| dev_index := index; dev_pos := 0; dev_released := false |} |}.

(** ** ThreadedStreamer and the streamers as one type *)

Inductive BaseStreamer :=
| Image (s : ImageStreamer.t)
| Dir (s : DirStreamer.t)
| Video (s : VideoStreamer.t)
| Camera (s : CameraStreamer.t)
| Threaded (streamer : BaseStreamer) (buffer_size : nat).

(** [ThreadedStreamer.__init__] with its default [buffer_size]. *)
Definition ThreadedStreamer (streamer : BaseStreamer) : BaseStreamer :=
  Threaded streamer 2.

Fixpoint get_type (s : BaseStreamer) : MediaType :=
  match s with
  | Image s => ImageStreamer.get_type s
  | Dir s => DirStreamer.get_type s
  | Video s => VideoStreamer.get_type s
  | Camera s => CameraStreamer.get_type s
  | Threaded streamer _ => get_type streamer
  end.

(** ** get_streamer *)

(** The dictionary [errors]: one list of messages per exception class. *)
Record Errors := {
  invalid_input : list string;
  open_error : list string
}.

(** [errors[type(error)].append(error.message)] *)
Definition record_error (errors : Errors) (error : StreamerError) : Errors :=
  match error with
  | InvalidInput message =>
      {| invalid_input := invalid_input errors ++ [message];
         open_error := open_error errors |}
  | OpenError message =>
      {| invalid_input := invalid_input errors;
         open_error := open_error errors ++ [message] |}
  end.

(** How a call of [get_streamer] ends: it returns, an exception leaves
    it uncaught, or it exits. *)
Inductive Outcome :=
| Returned (streamer : BaseStreamer)
| Uncaught (e : Exception)
| SysExit (status : Z).

(** A locator, as the signature of [get_streamer] has it. *)
Inductive Locator :=
| Str (s : string)
| Int (n : Z).

(** A class of the tuple, called on a locator of type [L]. *)
Definition reader (L : Type) : Type := L -> bool -> M (Attempt BaseStreamer).

(** What [get_streamer] calls on its locator: the three classes of the
    tuple and [int]. *)
Record Classes (L : Type) := {
  ImageStreamer_new : reader L;
  DirStreamer_new : reader L;
  VideoStreamer_new : reader L;
  int_of : L -> Exception + Z
}.
Arguments ImageStreamer_new {L} c.
Arguments DirStreamer_new {L} c.
Arguments VideoStreamer_new {L} c.
Arguments int_of {L} c.

(** The tuple [(ImageStreamer, DirStreamer, VideoStreamer)]. *)
Definition readers {L} (cls : Classes L) : list (reader L) :=
  [ ImageStreamer_new cls; DirStreamer_new cls; VideoStreamer_new cls ].

Definition wrap (threaded : bool) (streamer : BaseStreamer) : BaseStreamer :=
  if threaded then ThreadedStreamer streamer else streamer.

(** How the [for reader in ...] loop ends: it returns a streamer, it runs
    to its end with the errors collected, or an exception it does not
    catch goes through. *)
Inductive Tried :=
| Found (streamer : BaseStreamer)
| Failed (errors : Errors)
| Broke (e : Exception).

Fixpoint try_readers {L} (rs : list (reader L)) (input_path : L)
  (loop threaded : bool) (errors : Errors) : M Tried :=
  match rs with
  | [] => ret (Failed errors)
  | reader :: rest =>
      r <- reader input_path loop ;;
      match r with
      | Constructed streamer => ret (Found (wrap threaded streamer))
      | Refused error =>
          try_readers rest input_path loop threaded (record_error errors error)
      | Crashed e => ret (Broke e)
      end
  end.

Definition newline : string := String "010"%char EmptyString.

(** [print] of the unpacked messages to [sys.stderr] with a newline as
    separator: the text written. *)
Definition print_lines (messages : list string) : string :=
  (String.concat newline messages ++ newline)%string.

(** [get_streamer]: how the call ends and what it wrote to [sys.stderr]. *)
Definition get_streamer {L} (w : World) (cls : Classes L) (input_path : L)
  (loop threaded : bool) : M (Outcome * string) :=
  let errors := {| invalid_input := []; open_error := [] |} in
  tried <- try_readers (readers cls) input_path loop threaded errors ;;
  match tried with
  | Found streamer => ret (Returned streamer, "")
  | Broke e => ret (Uncaught e, "")
  | Failed errors =>
      match int_of cls input_path with
      | inl e => ret (Uncaught e, "")
      | inr index =>
          r <- CameraStreamer.init w (Some index) ;;
          match r with
          | Constructed streamer =>
              ret (Returned (wrap threaded (Camera streamer)), "")
          | Crashed e => ret (Uncaught e, "")
          | Refused error =>
              let errors := record_error errors error in
              match open_error errors with
              | [] => ret (SysExit 1, print_lines (invalid_input errors))
              | _ => ret (SysExit 1, print_lines (open_error errors))
              end
          end
      end
  end.

(** A class whose [__init__] is modelled, as a reader of [str]. *)
Definition as_reader {A} (init : string -> bool -> M (result A))
  (inj : A -> BaseStreamer) : reader string :=
  fun input_path loop =>
    r <- init input_path loop ;;
    ret (match r with Ok s => Constructed (inj s) | Raise e => Refused e end).

(** The classes and [int] on a [str]. *)
Definition on_str (w : World) : Classes string := {|
  ImageStreamer_new := as_reader (ImageStreamer.init w) Image;
  DirStreamer_new := as_reader (DirStreamer.init w) Dir;
  VideoStreamer_new := as_reader (VideoStreamer.init w) Video;
  int_of := fun s =>
    match int_str w s with
    | Some index => inr index
    | None => inl (ValueError s)
    end
|}.

(** The classes and [int] on a [str] or an [int], from what the classes
    do on each; [int] of an [int] is that [int]. *)
Definition on_locator (on_s : Classes string) (on_i : Classes Z)
  : Classes Locator := {|
  ImageStreamer_new := fun l =>
    match l with
    | Str s => ImageStreamer_new on_s s
    | Int n => ImageStreamer_new on_i n
    end;
  DirStreamer_new := fun l =>
    match l with
    | Str s => DirStreamer_new on_s s
    | Int n => DirStreamer_new on_i n
    end;
  VideoStreamer_new := fun l =>
    match l with
    | Str s => VideoStreamer_new on_s s
    | Int n => VideoStreamer_new on_i n
    end;
  int_of := fun l =>
    match l with
    | Str s => int_of on_s s
    | Int n => inr n
    end
|}.

(** ** Iterating any of the four sources *)

Inductive Gen :=
| ImageGen (g : ImageStreamer.gen)
| DirGen (g : DirStreamer.gen)
| VideoGen (g : VideoStreamer.gen)
| CameraGen (g : CameraStreamer.gen).

(** [iter(streamer)] for the four sources; [ThreadedStreamer.__iter__] is
    the transition system below. *)
Definition iter (streamer : BaseStreamer) : option Gen :=
  match streamer with
  | Image s => Some (ImageGen (ImageStreamer.iter s))
  | Dir s => Some (DirGen (DirStreamer.iter s))
  | Video s => Some (VideoGen (VideoStreamer.iter s))
  | Camera s => Some (CameraGen (CameraStreamer.iter s))
  | Threaded _ _ => None
  end.

Definition map_step {A B} (f : A -> B) (st : Step A) : Step B :=
  match st with
  | Yield frame s => Yield frame (f s)
  | Again s => Again (f s)
  | Return s => Return (f s)
  end.

Definition next (w : World) (g : Gen) : M (Step Gen) :=
  match g with
  | ImageGen g => st <- ImageStreamer.next g ;; ret (map_step ImageGen st)
  | DirGen g => st <- DirStreamer.next w g ;; ret (map_step DirGen st)
  | VideoGen g => st <- VideoStreamer.next g ;; ret (map_step VideoGen st)
  | CameraGen g => st <- CameraStreamer.next w g ;; ret (map_step CameraGen st)
  end.

(** ** ThreadedStreamer.__iter__ and _process_run

    Two processes and a [multiprocessing.Queue] between them, as a
    transition system whose steps interleave, from the moment
    [process.start()] has returned, the child being a fork of the parent
    (where the child is spawned instead, [process.start()] has to pickle
    the streamer and raises on one that holds a capture: no execution
    begins).  The child process starts from a copy of the parent's memory
    and runs [_process_run]; a frame crosses the queue by value.  A turn of the wrapped generator in the child either
    does what it would do in the parent or never comes back: a read from
    a capture that was opened before the fork may block for ever, and
    whether it does is the environment's, given here as [hangs].  The
    test of the [while] is one step: once [is_alive()] is false the queue
    no longer changes, so reading the two halves of the condition one
    after the other sees the same. *)

Section Threaded.

Variable S : Type.
(** the generator of the wrapped streamer *)
Variable inner_next : S -> M (Step S).
(** whether the turn the child would take from this state blocks *)
Variable hangs : S -> Heap -> bool.
(** [maxsize] of the queue; zero means no bound *)
Variable buffer_size : nat.

(** The child process. *)
Inductive Producer :=
| Iterating (s : S) (h : Heap)
| Putting (frame : ndarray) (s : S) (h : Heap)
| Finished
| Terminated.

(** The generator of [ThreadedStreamer.__iter__] in the parent. *)
Inductive Consumer :=
| Testing
| Getting
| Suspended
| Exhausted
| Closed.

Record Sys := mkSys {
  process : Producer;
  buffer : list Frame;
  consumer : Consumer;
  (** the parent's heap *)
  memory : Heap;
  (** the arrays yielded to the caller so far *)
  received : list ndarray
}.

Definition is_alive (p : Producer) : bool :=
  match p with
  | Iterating _ _ | Putting _ _ _ => true
  | Finished | Terminated => false
  end.

Definition full (q : list Frame) : bool :=
  (0 <? buffer_size) && (buffer_size <=? List.length q).

Definition start (s : S) (h : Heap) : Sys :=
  mkSys (Iterating s h) [] Testing h [].

Inductive step : Sys -> Sys -> Prop :=
(** child: the [for] takes a frame from the wrapped generator *)
| p_yield s h frame s' h' q c m out :
    hangs s h = false ->
    inner_next s h = (Yield frame s', h') ->
    step (mkSys (Iterating s h) q c m out)
         (mkSys (Putting frame s' h') q c m out)
| p_again s h s' h' q c m out :
    hangs s h = false ->
    inner_next s h = (Again s', h') ->
    step (mkSys (Iterating s h) q c m out)
         (mkSys (Iterating s' h') q c m out)
(** child: the wrapped generator returned, the process ends *)
| p_return s h s' h' q c m out :
    hangs s h = false ->
    inner_next s h = (Return s', h') ->
    step (mkSys (Iterating s h) q c m out)
         (mkSys Finished q c m out)
(** child: [buffer.put(frame)] goes through once there is room *)
| p_put frame s h q c m out :
    full q = false ->
    step (mkSys (Putting frame s h) q c m out)
         (mkSys (Iterating s h) (q ++ [deref h frame]) c m out)
(** parent: the [while] condition holds *)
| c_enter p q m out :
    is_alive p = true \/ q <> [] ->
    step (mkSys p q Testing m out) (mkSys p q Getting m out)
(** parent: the [while] condition fails, the generator returns *)
| c_exit p m out :
    is_alive p = false ->
    step (mkSys p [] Testing m out) (mkSys p [] Exhausted m out)
(** parent: [buffer.get] hands over the oldest frame, which is yielded *)
| c_get p x q m out :
    step (mkSys p (x :: q) Getting m out)
         (mkSys p q Suspended (m ++ [x]) (out ++ [List.length m]))
(** parent: [buffer.get] times out, [queue.Empty] is passed over *)
| c_timeout p m out :
    step (mkSys p [] Getting m out) (mkSys p [] Testing m out)
(** parent: the caller asks for the next frame *)
| c_resume p q m out :
    step (mkSys p q Suspended m out) (mkSys p q Testing m out)
(** parent: the caller closes the generator, [GeneratorExit]; a child
    still running is terminated *)
| c_close p q m out :
    step (mkSys p q Suspended m out)
         (mkSys (if is_alive p then Terminated else p) q Closed m out).

(** Executions. *)
Inductive steps : Sys -> Sys -> Prop :=
| steps_refl st : steps st st
| steps_snoc st1 st2 st3 : steps st1 st2 -> step st2 st3 -> steps st1 st3.

(** What the caller has been given, by value. *)
Definition delivered (st : Sys) : list Frame :=
  map (deref (memory st)) (received st).

(** What holds at every moment of an execution: the frames delivered,
    then those in the queue, then the one being put are, in this order,
    the frames the wrapped generator has yielded so far. *)
Definition invariant (s0 : S) (h0 : Heap) (st : Sys) : Prop :=
  Forall (fun r => r < List.length (memory st)) (received st) /\
  (consumer st = Exhausted ->
   buffer st = [] /\ is_alive (process st) = false) /\
  match process st with
  | Iterating s h =>
      exists k r,
        run inner_next k s0 h0 = (r, h) /\ finished r = false /\
        state r = s /\ frames r = delivered st ++ buffer st
  | Putting frame s h =>
      exists k r,
        run inner_next k s0 h0 = (r, h) /\ finished r = false /\
        state r = s /\ frames r = delivered st ++ buffer st ++ [deref h frame]
  | Finished =>
      exists k r h,
        run inner_next k s0 h0 = (r, h) /\ finished r = true /\
        frames r = delivered st ++ buffer st
  | Terminated =>
      consumer st = Closed /\
      exists k r h rest,
        run inner_next k s0 h0 = (r, h) /\
        frames r = delivered st ++ buffer st ++ rest
  end.

End Threaded.

Arguments Iterating {S} s h.
Arguments Putting {S} frame s h.
Arguments Finished {S}.
Arguments Terminated {S}.
Arguments mkSys {S} process buffer consumer memory received.
Arguments process {S} s.
Arguments buffer {S} s.
Arguments consumer {S} s.
Arguments memory {S} s.
Arguments received {S} s.
Arguments start {S} s h.
Arguments delivered {S} st.
Arguments is_alive {S} p.
Arguments invariant {S} inner_next s0 h0 st.

(** ** Which exception a construction raised *)

Definition raised_InvalidInput {A} (r : result A) : bool :=
  match r with Raise (InvalidInput _) => true | _ => false end.


Definition succeeded {A} (r : result A) : bool :=
  match r with Ok _ => true | Raise _ => false end.

(** The frames a pass over [names] delivers: the entries that decode, in
    the order of the list, converted. *)
Definition entry_frames (w : World) (dir : string) (names : list string)
  : list Frame :=
  flat_map (fun name =>
              match imread_data w (path_join dir name) with
              | Some img => [bgr2rgb img]
              | None => []
              end) names.

(** Where the cursor goes after entry [i]. *)
Definition next_id (s : DirStreamer.t) (i : nat) : nat :=
  if i <? List.length (DirStreamer.names s) - 1 then i + 1
  else if negb (DirStreamer.loop s) then i + 1 else 0.

(** The sources that convert a newly read array at every yield. *)
Definition converts_each_frame (g : Gen) : bool :=
  match g with
  | ImageGen _ => false
  | DirGen _ | VideoGen _ | CameraGen _ => true
  end.

(** What [threaded] adds to an outcome. *)
Definition in_thread (o : Outcome) : Outcome :=
  match o with
  | Returned streamer => Returned (ThreadedStreamer streamer)
  | _ => o
  end.

(** ** The model tests of [train_tests_face_detection.py]

    The shell commands, the download and the parsing of YAML are the
    environment's; what the tests compute themselves are paths and a
    dictionary. *)

(** [s.split('.')[0]] *)
Fixpoint before_dot (s : string) : string :=
  match s with
  | EmptyString => EmptyString
  | String c rest =>
      if Ascii.eqb c "." then EmptyString else String c (before_dot rest)
  end.

(** A [dict] from [str] to [str], in insertion order. *)
Definition Dict := list (string * string).

(** [d[k] = v] *)
Fixpoint dict_set (k v : string) (d : Dict) : Dict :=
  match d with
  | [] => [(k, v)]
  | (k', v') :: rest =>
      if String.eqb k' k then (k', v) :: rest else (k', v') :: dict_set k v rest
  end.

(** [d[k]], [None] standing for [KeyError]. *)
Fixpoint dict_get (k : string) (d : Dict) : option string :=
  match d with
  | [] => None
  | (k', v') :: rest => if String.eqb k' k then Some v' else dict_get k rest
  end.

(** One entry of [content['dependencies']]. *)
Record Dependency := {
  destination : string;
  source : string
}.

(** [FaceDetection0200TestCaseOteApi.get_dependencies], from the parsed
    list of dependencies. *)
Definition get_dependencies (dependencies : list Dependency) : Dict :=
  fold_left
    (fun output dependency =>
       dict_set (before_dot (destination dependency)) (source dependency)
                output)
    dependencies [].

Fixpoint has_slash (s : string) : bool :=
  match s with
  | EmptyString => false
  | String c rest => Ascii.eqb c "/" || has_slash rest
  end.

(** [os.path.basename(p)] of [posixpath]: what follows the last slash. *)
Fixpoint basename (p : string) : string :=
  match p with
  | EmptyString => EmptyString
  | String c rest =>
      if has_slash rest then basename rest
      else if Ascii.eqb c "/" then rest else p
  end.

(** The paths [setUp] computes for a model. *)
Record TestPaths := {
  work_dir : string;
  configuration_file : string;
  url : string;
  resume_from : string
}.

Definition setUp (model_name : string) : TestPaths :=
  let work_dir := path_join "/tmp/" model_name in
  let configuration_file :=
    ("./face-detection/" ++ model_name ++ "/config.py")%string in
  let configuration_file := path_join work_dir (basename configuration_file) in
  let ote_url :=
    "https://download.01.org/opencv/openvino_training_extensions" in
  let url :=
    (ote_url ++ "/models/object_detection/v2/" ++ model_name ++ ".pth")%string in
  {| work_dir := work_dir;
     configuration_file := configuration_file;
     url := url;
     resume_from := (path_join work_dir model_name ++ ".pth")%string |}.

(** The checkpoint [test_quality_metrics] hands to the evaluation. *)
Definition test_quality_metrics_checkpoint (model_name : string) : string :=
  path_join (work_dir (setUp model_name)) (model_name ++ ".pth")%string.

Definition starts_slash (b : string) : bool :=
  match b with
  | String c _ => Ascii.eqb c "/"
  | EmptyString => false
  end.

Definition ends_slash (a : string) : bool :=
  match get (String.length a - 1) a with
  | Some c => Ascii.eqb c "/"
  | None => false
  end.

(** ** A small world to run the code in *)

(** A one-pixel array. *)
Definition solid (c0 c1 c2 : N) : Frame := [[mkPixel c0 c1 c2]].

Definition frame0 : Frame := solid 10 20 30.
Definition frame1 : Frame := solid 11 21 31.
Definition frame2 : Frame := solid 12 22 32.

Definition one_of (l : list string) (s : string) : bool :=
  existsb (String.eqb s) l.

(** Files [pic.png] (an image), [notes.txt] and [broken.mp4] (neither
    decodes nor opens), [clip.mp4] (a video of three frames); directories
    [shots] (two images, listed out of order), [empty] and [junk] (one
    entry that does not decode); camera 0 delivers two frames. *)
Definition demo : World := {|
  isfile := one_of ["pic.png"; "notes.txt"; "broken.mp4"; "clip.mp4";
                    "shots/a.png"; "shots/b.png"; "junk/x.bin"];
  isdir := one_of ["shots"; "empty"; "junk"];
  listdir := fun d =>
    if (d =? "shots")%string then ["b.png"; "a.png"]
    else if (d =? "junk")%string then ["x.bin"]
    else [];
  imread_data := fun f =>
    if (f =? "pic.png")%string then Some frame0
    else if (f =? "shots/a.png")%string then Some frame1
    else if (f =? "shots/b.png")%string then Some frame2
    else None;
  video_data := fun f =>
    if (f =? "clip.mp4")%string then Some [frame0; frame1; frame2] else None;
  camera_data := fun d k =>
    if (d =? 0)%Z then nth_error [frame0; frame1] k else None;
  index_rejected := fun index =>
    negb ((- 2147483648 <=? index)%Z && (index <=? 2147483647)%Z);
  int_beyond := fun _ => None
|}.

(** [str] of an [int], as an f-string prints it. *)
Definition str_of_int (n : Z) : string := NilZero.string_of_int (Z.to_int n).

(** The camera 0 of [demo] opened by [cap.open(0)]. *)
Definition demo_camera_video (loop : bool) : VideoStreamer.t :=
  {| VideoStreamer.loop := loop; VideoStreamer.media_type := VIDEO;
     VideoStreamer.cap := {| cap_frames := [frame0; frame1]; cap_pos := 0 |} |}.

(** What the classes do on an [int] in [demo].  No file descriptor is a
    file or a directory there, so [os.path.isfile] and [os.path.isdir]
    are false on every [int]; [cap.open] of an [int] opens the camera of
    that index, and there is but camera 0; on an index the capture does
    not take it raises as the constructor of the capture does. *)
Definition demo_on_int : Classes Z := {|
  ImageStreamer_new := fun n _ =>
    ret (Refused (InvalidInput ("Can't find the image by " ++ str_of_int n)));
  DirStreamer_new := fun n _ =>
    ret (Refused (InvalidInput ("Can't find the dir by " ++ str_of_int n)));
  VideoStreamer_new := fun n loop =>
    if index_rejected demo n then ret (Crashed Cv2Error)
    else if (n =? 0)%Z then ret (Constructed (Video (demo_camera_video loop)))
    else
      ret (Refused (InvalidInput ("Can't open the video from " ++ str_of_int n)));
  int_of := fun n => inr n
|}.

(** The classes of [demo] on any locator. *)
Definition demo_classes : Classes Locator :=
  on_locator (on_str demo) demo_on_int.

(** The video [clip.mp4] as [get_streamer] constructs it, without and
    with [loop]. *)
Definition demo_video : VideoStreamer.t :=
  {| VideoStreamer.loop := false; VideoStreamer.media_type := VIDEO;
     VideoStreamer.cap :=
       {| cap_frames := [frame0; frame1; frame2]; cap_pos := 0 |} |}.

Definition demo_loop_video : VideoStreamer.t :=
  {| VideoStreamer.loop := true; VideoStreamer.media_type := VIDEO;
     VideoStreamer.cap :=
       {| cap_frames := [frame0; frame1; frame2]; cap_pos := 0 |} |}.

(** A child whose turns all come back, and one whose turns all block. *)
Definition never_hangs {S} : S -> Heap -> bool := fun _ _ => false.

(** Moments of a [ThreadedStreamer] around [demo_video] with a queue of
    one: the first frame has been yielded to the caller; the caller has
    then closed the generator. *)
Definition demo_suspended : Sys VideoStreamer.gen :=
  mkSys (Iterating (VideoStreamer.set_cap demo_video
                      {| cap_frames := [frame0; frame1; frame2]; cap_pos := 1 |})
                   [frame0; bgr2rgb frame0])
        [] Suspended [bgr2rgb frame0] [0].

Definition demo_closed : Sys VideoStreamer.gen :=
  mkSys Terminated [] Closed [bgr2rgb frame0] [0].

(** The [ImageStreamer] of [pic.png], with [loop] and without, in the
    heap its construction leaves.  Moments of a [ThreadedStreamer] around
    the one with [loop]: with a queue of one and a caller that does not
    ask, the first frame fills the queue and the child waits in [put]
    with the second; with a queue of two, two frames have been yielded to
    the caller. *)
Definition demo_image : ImageStreamer.t :=
  {| ImageStreamer.loop := true; ImageStreamer.media_type := IMAGE;
     ImageStreamer.image := 1 |}.


Definition demo_image_heap : Heap := [frame0; bgr2rgb frame0].

Definition demo_queue_full : Sys ImageStreamer.gen :=
  mkSys (Putting 1 (demo_image, ImageStreamer.Yielded) demo_image_heap)
        [bgr2rgb frame0] Testing demo_image_heap [].

Definition demo_two_received : Sys ImageStreamer.gen :=
  mkSys (Iterating (demo_image, ImageStreamer.Yielded) demo_image_heap)
        [] Suspended
        (demo_image_heap ++ [bgr2rgb frame0; bgr2rgb frame0]) [2; 3].

(** * Properties *)

(** ** The heap only grows *)

Lemma deref_new (h : Heap) (x : Frame) : deref (h ++ [x]) (List.length h) = x.
Proof.
  unfold deref. rewrite app_nth2 by lia. now rewrite Nat.sub_diag.
Qed.

Lemma deref_old (h ext : Heap) (r : ndarray) :
  r < List.length h -> deref (h ++ ext) r = deref h r.
Proof. intros Hr. unfold deref. now rewrite app_nth1. Qed.

(** ** Construction *)




(** [CameraStreamer(index)]: the object on that device, or the
    [cv2.error] of the capture; never one of the module's exceptions. *)
Lemma CameraStreamer_init_on_device (w : World) (index : Z) (h : Heap) :
  CameraStreamer.init w (Some index) h =
    (if index_rejected w index then Crashed Cv2Error
     else Constructed (on_device index), h).
Proof.
  unfold CameraStreamer.init. now destruct (index_rejected w index).
Qed.


Lemma ImageStreamer_init_cases w input_path loop h :
  ImageStreamer.init w input_path loop h =
    if isfile w input_path then
      match imread_data w input_path with
      | Some img =>
          (Ok {| ImageStreamer.loop := loop; ImageStreamer.media_type := IMAGE;
                 ImageStreamer.image := Datatypes.S (List.length h) |},
           h ++ [img] ++ [bgr2rgb img])
      | None =>
          (Raise (OpenError ("Can't open the image from " ++ input_path)%string), h)
      end
    else
      (Raise (InvalidInput ("Can't find the image by " ++ input_path)%string), h).
Proof.
  unfold ImageStreamer.init.
  destruct (isfile w input_path); simpl; [|reflexivity].
  unfold bind, cv2_imread.
  destruct (imread_data w input_path) as [img|]; simpl; [|reflexivity].
  unfold cv2_cvtColor, new_array, ret, bind. simpl.
  rewrite deref_new, length_app, <- app_assoc. simpl.
  now rewrite Nat.add_1_r.
Qed.




(** ** get_streamer *)

Section Selection.

Context {L : Type} (w : World) (cls : Classes L).

(** The [for] loop over the three readers, unrolled. *)
Lemma try_readers_unrolled input_path loop threaded errors h :
  try_readers (readers cls) input_path loop threaded errors h =
    match ImageStreamer_new cls input_path loop h with
    | (Constructed s, h1) => (Found (wrap threaded s), h1)
    | (Crashed e, h1) => (Broke e, h1)
    | (Refused e1, h1) =>
        match DirStreamer_new cls input_path loop h1 with
        | (Constructed s, h2) => (Found (wrap threaded s), h2)
        | (Crashed e, h2) => (Broke e, h2)
        | (Refused e2, h2) =>
            match VideoStreamer_new cls input_path loop h2 with
            | (Constructed s, h3) => (Found (wrap threaded s), h3)
            | (Crashed e, h3) => (Broke e, h3)
            | (Refused e3, h3) =>
                (Failed (record_error (record_error (record_error errors e1) e2)
                                      e3), h3)
            end
        end
    end.
Proof.
  unfold readers, try_readers, bind, ret.
  destruct (ImageStreamer_new cls input_path loop h) as [[s|e1|e] h1];
    try reflexivity.
  destruct (DirStreamer_new cls input_path loop h1) as [[s|e2|e] h2];
    try reflexivity.
  destruct (VideoStreamer_new cls input_path loop h2) as [[s|e3|e] h3];
    reflexivity.
Qed.

(** [get_streamer] as the cascade it amounts to. *)
Lemma get_streamer_cases input_path loop threaded h :
  get_streamer w cls input_path loop threaded h =
    match ImageStreamer_new cls input_path loop h with
    | (Constructed s, h1) => (Returned (wrap threaded s), "", h1)
    | (Crashed e, h1) => (Uncaught e, "", h1)
    | (Refused _, h1) =>
        match DirStreamer_new cls input_path loop h1 with
        | (Constructed s, h2) => (Returned (wrap threaded s), "", h2)
        | (Crashed e, h2) => (Uncaught e, "", h2)
        | (Refused _, h2) =>
            match VideoStreamer_new cls input_path loop h2 with
            | (Constructed s, h3) => (Returned (wrap threaded s), "", h3)
            | (Crashed e, h3) => (Uncaught e, "", h3)
            | (Refused _, h3) =>
                match int_of cls input_path with
                | inl e => (Uncaught e, "", h3)
                | inr index =>
                    if index_rejected w index then (Uncaught Cv2Error, "", h3)
                    else (Returned (wrap threaded (Camera (on_device index))),
                          "", h3)
                end
            end
        end
    end.
Proof.
  unfold get_streamer, bind. rewrite try_readers_unrolled.
  destruct (ImageStreamer_new cls input_path loop h) as [[s|e1|e] h1];
    try reflexivity.
  destruct (DirStreamer_new cls input_path loop h1) as [[s|e2|e] h2];
    try reflexivity.
  destruct (VideoStreamer_new cls input_path loop h2) as [[s|e3|e] h3];
    try reflexivity.
  destruct (int_of cls input_path) as [e|index]; [reflexivity|].
  rewrite CameraStreamer_init_on_device.
  now destruct (index_rejected w index).
Qed.

(** C3.  Whatever the type of the locator and whatever the classes do on
    it, [get_streamer] calls [ImageStreamer], [DirStreamer] and
    [VideoStreamer] in this order, each one in the heap the ones before it
    left when they raised [InvalidInput] or [OpenError], and returns the
    first streamer that is constructed (wrapped when [threaded]) in the
    heap that construction left, the later classes not having been
    called.  Only when all three raised does it call [int] on the locator
    and construct a [CameraStreamer] on that index: what [int] raises, or
    the [cv2.error] of a capture that does not take the index, leaves the
    call uncaught. *)
Theorem get_streamer_priority (input_path : L) (loop threaded : bool)
  (h : Heap) :
  (forall s h1,
     ImageStreamer_new cls input_path loop h = (Constructed s, h1) ->
     get_streamer w cls input_path loop threaded h =
       (Returned (wrap threaded s), "", h1)) /\
  (forall e1 h1 s h2,
     ImageStreamer_new cls input_path loop h = (Refused e1, h1) ->
     DirStreamer_new cls input_path loop h1 = (Constructed s, h2) ->
     get_streamer w cls input_path loop threaded h =
       (Returned (wrap threaded s), "", h2)) /\
  (forall e1 h1 e2 h2 s h3,
     ImageStreamer_new cls input_path loop h = (Refused e1, h1) ->
     DirStreamer_new cls input_path loop h1 = (Refused e2, h2) ->
     VideoStreamer_new cls input_path loop h2 = (Constructed s, h3) ->
     get_streamer w cls input_path loop threaded h =
       (Returned (wrap threaded s), "", h3)) /\
  (forall e1 h1 e2 h2 e3 h3,
     ImageStreamer_new cls input_path loop h = (Refused e1, h1) ->
     DirStreamer_new cls input_path loop h1 = (Refused e2, h2) ->
     VideoStreamer_new cls input_path loop h2 = (Refused e3, h3) ->
     get_streamer w cls input_path loop threaded h =
       match int_of cls input_path with
       | inl e => (Uncaught e, "", h3)
       | inr index =>
           if index_rejected w index then (Uncaught Cv2Error, "", h3)
           else (Returned (wrap threaded (Camera (on_device index))), "", h3)
       end).
Proof.
  repeat apply conj; intros; rewrite get_streamer_cases;
    repeat match goal with
           | H : _ = (_, _) |- _ => rewrite H; clear H
           end; reflexivity.
Qed.

(** No call of [get_streamer] ends in [sys.exit]: the lines that print the
    collected messages and exit are never reached. *)
Lemma get_streamer_never_exits input_path loop threaded h status :
  fst (fst (get_streamer w cls input_path loop threaded h)) <> SysExit status.
Proof.
  rewrite get_streamer_cases.
  destruct (ImageStreamer_new cls input_path loop h) as [[s|e1|e] h1];
    try discriminate.
  destruct (DirStreamer_new cls input_path loop h1) as [[s|e2|e] h2];
    try discriminate.
  destruct (VideoStreamer_new cls input_path loop h2) as [[s|e3|e] h3];
    try discriminate.
  destruct (int_of cls input_path) as [e|index]; [discriminate|].
  destruct (index_rejected w index); discriminate.
Qed.

End Selection.

(** [get_streamer_priority] in the world [demo].  On a [str]: an image,
    a directory, a video asked for with [threaded], the locator of camera
    0, an index the capture does not take, and a digit after a byte that
    [int] does not skip.  On an [int]: 0, which [VideoStreamer] opens as
    the camera before [CameraStreamer] is tried, and 7, where there is no
    camera. *)
Lemma get_streamer_priority_witness :
  fst (fst (get_streamer demo (on_str demo) "pic.png" false false [])) =
    Returned (Image {| ImageStreamer.loop := false;
                       ImageStreamer.media_type := IMAGE;
                       ImageStreamer.image := 1 |}) /\
  fst (fst (get_streamer demo (on_str demo) "shots" true false [])) =
    Returned (Dir {| DirStreamer.loop := true; DirStreamer.media_type := DIR;
                     DirStreamer.dir := "shots";
                     DirStreamer.names := ["a.png"; "b.png"];
                     DirStreamer.file_id := 0 |}) /\
  fst (fst (get_streamer demo (on_str demo) "clip.mp4" false true [])) =
    Returned (Threaded
      (Video {| VideoStreamer.loop := false; VideoStreamer.media_type := VIDEO;
                VideoStreamer.cap :=
                  {| cap_frames := [frame0; frame1; frame2]; cap_pos := 0 |} |})
      2) /\
  fst (fst (get_streamer demo (on_str demo) "0" false false [])) =
    Returned (Camera (on_device 0)) /\
  fst (fst (get_streamer demo (on_str demo) "2147483648" false false [])) =
    Uncaught Cv2Error /\
  fst (fst (get_streamer demo (on_str demo) (String "028" "5")
                         false false [])) =
    Uncaught (ValueError (String "028" "5")) /\
  fst (fst (get_streamer demo demo_classes (Int 0) false false [])) =
    Returned (Video (demo_camera_video false)) /\
  fst (fst (get_streamer demo demo_classes (Int 7) false true [])) =
    Returned (Threaded (Camera (on_device 7)) 2) /\
  fst (fst (get_streamer demo demo_classes (Str "pic.png") false false [])) =
    Returned (Image {| ImageStreamer.loop := false;
                       ImageStreamer.media_type := IMAGE;
                       ImageStreamer.image := 1 |}).
Proof.
  destruct (get_streamer_priority demo (on_str demo) "pic.png" false false [])
    as (Himage & _).
  destruct (get_streamer_priority demo (on_str demo) "shots" true false [])
    as (_ & Hdir & _).
  destruct (get_streamer_priority demo (on_str demo) "clip.mp4" false true [])
    as (_ & _ & Hvideo & _).
  destruct (get_streamer_priority demo (on_str demo) "0" false false [])
    as (_ & _ & _ & Hcamera).
  destruct (get_streamer_priority demo (on_str demo) "2147483648"
              false false []) as (_ & _ & _ & Hbeyond).
  destruct (get_streamer_priority demo (on_str demo) (String "028" "5")
              false false []) as (_ & _ & _ & Hliteral).
  destruct (get_streamer_priority demo demo_classes (Int 0) false false [])
    as (_ & _ & Hint0 & _).
  destruct (get_streamer_priority demo demo_classes (Int 7) false true [])
    as (_ & _ & _ & Hint7).
  destruct (get_streamer_priority demo demo_classes (Str "pic.png")
              false false []) as (Hstr & _).
  split; [now rewrite (Himage _ _ eq_refl)|].
  split; [now rewrite (Hdir _ _ _ _ eq_refl eq_refl)|].
  split; [now rewrite (Hvideo _ _ _ _ _ _ eq_refl eq_refl eq_refl)|].
  split; [now rewrite (Hcamera _ _ _ _ _ _ eq_refl eq_refl eq_refl)|].
  split; [now rewrite (Hbeyond _ _ _ _ _ _ eq_refl eq_refl eq_refl)|].
  split; [now rewrite (Hliteral _ _ _ _ _ _ eq_refl eq_refl eq_refl)|].
  split; [now rewrite (Hint0 _ _ _ _ _ _ eq_refl eq_refl eq_refl)|].
  split; [now rewrite (Hint7 _ _ _ _ _ _ eq_refl eq_refl eq_refl)|].
  now rewrite (Hstr _ _ eq_refl).
Defined.

(** A construction that raises has allocated nothing. *)
Lemma any_readable_heap w dir names h h1 :
  DirStreamer.any_readable w dir names h = (false, h1) -> h1 = h.
Proof.
  revert h. induction names as [|name rest IH]; simpl; intros h.
  - unfold ret. congruence.
  - unfold bind, cv2_imread.
    destruct (imread_data w (path_join dir name)).
    + unfold new_array, ret, bind. discriminate.
    + unfold ret. apply IH.
Qed.

Lemma ImageStreamer_init_raise w input_path loop h e h1 :
  ImageStreamer.init w input_path loop h = (Raise e, h1) -> h1 = h.
Proof.
  rewrite ImageStreamer_init_cases.
  destruct (isfile w input_path); [|congruence].
  destruct (imread_data w input_path); congruence.
Qed.

Lemma DirStreamer_init_raise w input_path loop h e h1 :
  DirStreamer.init w input_path loop h = (Raise e, h1) -> h1 = h.
Proof.
  unfold DirStreamer.init.
  destruct (isdir w input_path); simpl; [|unfold ret; congruence].
  destruct (sorted (listdir w input_path)) as [|n0 rest];
    [unfold ret; congruence|].
  unfold bind.
  destruct (DirStreamer.any_readable w input_path (n0 :: rest) h)
    as [[|] h2] eqn:E; unfold ret; [discriminate|].
  intros H. apply any_readable_heap in E. congruence.
Qed.

Lemma VideoStreamer_init_heap w input_path loop h r h1 :
  VideoStreamer.init w input_path loop h = (r, h1) -> h1 = h.
Proof.
  unfold VideoStreamer.init.
  destruct (video_data w input_path); unfold ret; congruence.
Qed.

(** [get_streamer] on a [str], every class run in the heap of the call:
    one that raises has allocated nothing. *)
Lemma get_streamer_str_cases w input_path loop threaded h :
  get_streamer w (on_str w) input_path loop threaded h =
    match ImageStreamer.init w input_path loop h with
    | (Ok s, h1) => (Returned (wrap threaded (Image s)), "", h1)
    | (Raise _, _) =>
        match DirStreamer.init w input_path loop h with
        | (Ok s, h2) => (Returned (wrap threaded (Dir s)), "", h2)
        | (Raise _, _) =>
            match VideoStreamer.init w input_path loop h with
            | (Ok s, _) => (Returned (wrap threaded (Video s)), "", h)
            | (Raise _, _) =>
                match int_str w input_path with
                | None => (Uncaught (ValueError input_path), "", h)
                | Some index =>
                    if index_rejected w index then (Uncaught Cv2Error, "", h)
                    else (Returned (wrap threaded (Camera (on_device index))),
                          "", h)
                end
            end
        end
    end.
Proof.
  rewrite get_streamer_cases. cbn [on_str ImageStreamer_new DirStreamer_new
    VideoStreamer_new int_of]. unfold as_reader, bind, ret.
  destruct (ImageStreamer.init w input_path loop h) as [[s|e1] h1] eqn:Ei;
    [reflexivity|].
  apply ImageStreamer_init_raise in Ei. subst h1.
  destruct (DirStreamer.init w input_path loop h) as [[s|e2] h2] eqn:Ed;
    [reflexivity|].
  apply DirStreamer_init_raise in Ed. subst h2.
  destruct (VideoStreamer.init w input_path loop h) as [[s|e3] h3] eqn:Ev;
    apply VideoStreamer_init_heap in Ev; subst h3; [reflexivity|].
  now destruct (int_str w input_path).
Qed.

(** When the three readers raise and the locator is no integer literal,
    the call ends in the [ValueError] of [int], with nothing written. *)
Lemma get_streamer_invalid_locator w input_path loop threaded h :
  succeeded (fst (ImageStreamer.init w input_path loop h)) = false ->
  succeeded (fst (DirStreamer.init w input_path loop h)) = false ->
  succeeded (fst (VideoStreamer.init w input_path loop h)) = false ->
  int_str w input_path = None ->
  get_streamer w (on_str w) input_path loop threaded h =
    (Uncaught (ValueError input_path), "", h).
Proof.
  intros Hi Hd Hv Hp. rewrite get_streamer_str_cases.
  destruct (ImageStreamer.init w input_path loop h) as [[s|e1] h1];
    [discriminate|].
  destruct (DirStreamer.init w input_path loop h) as [[s|e2] h2];
    [discriminate|].
  destruct (VideoStreamer.init w input_path loop h) as [[s|e3] h3];
    [discriminate|].
  now rewrite Hp.
Qed.

(** C2 (the code at the failing input).  In the world [demo] nothing is
    called [nowhere]: the three readers raise [InvalidInput], [int] raises
    [ValueError], and the call ends there, having written nothing and
    without reaching [sys.exit]. *)
Theorem get_streamer_nowhere :
  raised_InvalidInput (fst (ImageStreamer.init demo "nowhere" false [])) = true /\
  raised_InvalidInput (fst (DirStreamer.init demo "nowhere" false [])) = true /\
  raised_InvalidInput (fst (VideoStreamer.init demo "nowhere" false [])) = true /\
  py_int "nowhere" = None /\
  int_str demo "nowhere" = None /\
  get_streamer demo (on_str demo) "nowhere" false false [] =
    (Uncaught (ValueError "nowhere"), "", []).
Proof. repeat apply conj; reflexivity. Qed.

(** ** Driving a generator *)

Section Driving.

Context {S : Type} (next : S -> M (Step S)).

(** Running [a + b] turns is running [a] turns and, unless the generator
    returned, [b] more. *)
Lemma run_app (a b : nat) (s : S) (h : Heap) :
  run next (a + b) s h =
    let (r1, h1) := run next a s h in
    if finished r1 then (r1, h1)
    else
      let (r2, h2) := run next b (state r1) h1 in
      (mkRun (yields r1 ++ yields r2) (frames r1 ++ frames r2)
             (state r2) (finished r2), h2).
Proof.
  revert s h. induction a as [|a IH]; intros s h.
  - simpl. unfold ret. destruct (run next b s h) as [[ys fs s2 fin] h2].
    reflexivity.
  - simpl. unfold bind.
    destruct (next s h) as [[frame s'|s'|s'] h1].
    + unfold peek. rewrite IH.
      destruct (run next a s' h1) as [[ys1 fs1 s1 [|]] h2]; unfold ret; simpl;
        [reflexivity|].
      destruct (run next b s1 h2) as [r2 h3]. reflexivity.
    + apply IH.
    + reflexivity.
Qed.


(** As many frames as references. *)
Lemma run_length (fuel : nat) (s : S) (h : Heap) :
  List.length (frames (fst (run next fuel s h))) =
  List.length (yields (fst (run next fuel s h))).
Proof.
  revert s h. induction fuel as [|fuel IH]; intros s h; [reflexivity|].
  simpl. unfold bind.
  destruct (next s h) as [[frame s'|s'|s'] h1]; [|apply IH|reflexivity].
  unfold peek. specialize (IH s' h1).
  destruct (run next fuel s' h1) as [r h2]. simpl in *. now rewrite IH.
Qed.

End Driving.

(** ** ImageStreamer *)

Lemma ImageStreamer_run_once (s : ImageStreamer.t) (h : Heap) (fuel : nat) :
  ImageStreamer.loop s = false ->
  run ImageStreamer.next (2 + fuel) (ImageStreamer.iter s) h =
    (mkRun [ImageStreamer.image s] [deref h (ImageStreamer.image s)]
           (s, ImageStreamer.Yielded) true, h).
Proof.
  intros Hloop. simpl. unfold bind, ret, peek. simpl. now rewrite Hloop.
Qed.

Lemma ImageStreamer_run_from_yielded (s : ImageStreamer.t) (h : Heap) (fuel : nat) :
  ImageStreamer.loop s = true ->
  run ImageStreamer.next fuel (s, ImageStreamer.Yielded) h =
    (mkRun (repeat (ImageStreamer.image s) fuel)
           (repeat (deref h (ImageStreamer.image s)) fuel)
           (s, ImageStreamer.Yielded) false, h).
Proof.
  intros Hloop. induction fuel as [|fuel IH]; [reflexivity|].
  simpl. unfold bind. simpl. rewrite Hloop. simpl. unfold ret, peek.
  now rewrite IH.
Qed.

Lemma ImageStreamer_run_forever (s : ImageStreamer.t) (h : Heap) (fuel : nat) :
  ImageStreamer.loop s = true ->
  run ImageStreamer.next fuel (ImageStreamer.iter s) h =
    (mkRun (repeat (ImageStreamer.image s) fuel)
           (repeat (deref h (ImageStreamer.image s)) fuel)
           (s, match fuel with O => ImageStreamer.Entry
                             | _ => ImageStreamer.Yielded end) false, h).
Proof.
  intros Hloop. destruct fuel as [|fuel]; [reflexivity|].
  simpl. unfold bind, ret, peek. simpl.
  now rewrite ImageStreamer_run_from_yielded.
Qed.

(** What [__init__] leaves behind when it succeeds: the decoded file and
    its converted copy, the object holding the copy. *)
Lemma ImageStreamer_init_ok w input_path loop h0 s h :
  ImageStreamer.init w input_path loop h0 = (Ok s, h) ->
  exists img,
    imread_data w input_path = Some img /\
    ImageStreamer.loop s = loop /\
    ImageStreamer.image s = Datatypes.S (List.length h0) /\
    h = h0 ++ [img] ++ [bgr2rgb img] /\
    deref h (ImageStreamer.image s) = bgr2rgb img.
Proof.
  rewrite ImageStreamer_init_cases.
  destruct (isfile w input_path); [|discriminate].
  destruct (imread_data w input_path) as [img|]; [|discriminate].
  intros H. injection H as <- <-. exists img. simpl.
  repeat apply conj; try reflexivity.
  replace (h0 ++ [img; bgr2rgb img]) with ((h0 ++ [img]) ++ [bgr2rgb img])
    by now rewrite <- app_assoc.
  replace (Datatypes.S (List.length h0)) with (List.length (h0 ++ [img]))
    by (rewrite length_app; simpl; lia).
  apply deref_new.
Qed.

(** C6.  An [ImageStreamer] that was constructed yields, when [loop] is
    false, its one frame and returns; when [loop] is true, it yields at
    every turn the same array holding the same pixels and never returns,
    so the hundredth frame is the first. *)
Theorem ImageStreamer_iteration (w : World) (input_path : string)
  (loop : bool) (h0 : Heap) (s : ImageStreamer.t) (h : Heap) :
  ImageStreamer.init w input_path loop h0 = (Ok s, h) ->
  exists img,
    imread_data w input_path = Some img /\
    (loop = false -> forall fuel, 2 <= fuel ->
       run ImageStreamer.next fuel (ImageStreamer.iter s) h =
         (mkRun [ImageStreamer.image s] [bgr2rgb img]
                (s, ImageStreamer.Yielded) true, h)) /\
    (loop = true -> forall fuel,
       let r := fst (run ImageStreamer.next fuel (ImageStreamer.iter s) h) in
       finished r = false /\
       yields r = repeat (ImageStreamer.image s) fuel /\
       frames r = repeat (bgr2rgb img) fuel /\
       (100 <= fuel ->
        nth_error (frames r) 99 = Some (bgr2rgb img) /\
        nth_error (frames r) 0 = Some (bgr2rgb img) /\
        nth_error (yields r) 99 = nth_error (yields r) 0)).
Proof.
  intros Hinit.
  destruct (ImageStreamer_init_ok _ _ _ _ _ _ Hinit)
    as (img & Himg & Hloop & _ & _ & Hderef).
  exists img. split; [exact Himg|]. split.
  - intros -> fuel Hfuel.
    replace fuel with (2 + (fuel - 2)) by lia.
    rewrite ImageStreamer_run_once by exact Hloop. now rewrite Hderef.
  - intros -> fuel. cbv zeta.
    rewrite ImageStreamer_run_forever by exact Hloop.
    cbn [fst frames yields finished]. rewrite Hderef. repeat apply conj; try reflexivity.
    intros Hfuel. rewrite !nth_error_repeat by lia. now repeat split.
Qed.

(** [ImageStreamer_iteration] on [pic.png]: one frame without [loop]; the
    hundredth frame with [loop]. *)
Lemma ImageStreamer_iteration_witness :
  run ImageStreamer.next 5
      (ImageStreamer.iter
         {| ImageStreamer.loop := false; ImageStreamer.media_type := IMAGE;
            ImageStreamer.image := 1 |})
      [frame0; bgr2rgb frame0] =
    (mkRun [1] [bgr2rgb frame0]
       ({| ImageStreamer.loop := false; ImageStreamer.media_type := IMAGE;
           ImageStreamer.image := 1 |}, ImageStreamer.Yielded) true,
     [frame0; bgr2rgb frame0]) /\
  nth_error (frames (fst (run ImageStreamer.next 100
      (ImageStreamer.iter
         {| ImageStreamer.loop := true; ImageStreamer.media_type := IMAGE;
            ImageStreamer.image := 1 |})
      [frame0; bgr2rgb frame0]))) 99 = Some (bgr2rgb frame0).
Proof.
  split.
  - destruct (ImageStreamer_iteration demo "pic.png" false [] _ _ eq_refl)
      as (img & Himg & Honce & _).
    injection Himg as <-. apply Honce; [reflexivity|lia].
  - destruct (ImageStreamer_iteration demo "pic.png" true [] _ _ eq_refl)
      as (img & Himg & _ & Hloop).
    injection Himg as <-.
    destruct (Hloop eq_refl 100) as (_ & _ & _ & H100).
    apply H100. lia.
Defined.

(** ** VideoStreamer *)

Lemma skipn_nth_error {A} (l : list A) (p : nat) (x : A) :
  nth_error l p = Some x -> skipn p l = x :: skipn (Datatypes.S p) l.
Proof.
  revert l. induction p as [|p IH]; intros [|a l]; simpl; try discriminate.
  - now intros [= ->].
  - apply IH.
Qed.

(** The streamer [s] with its capture at position [p] of the frames [F]. *)
Local Abbreviation at_pos s F p :=
  (VideoStreamer.set_cap s {| cap_frames := F; cap_pos := p |}).

Lemma VideoStreamer_at_pos (s : VideoStreamer.t) :
  s = at_pos s (cap_frames (VideoStreamer.cap s)) (cap_pos (VideoStreamer.cap s)).
Proof. now destruct s as [l m [F p]]. Qed.

Lemma VideoStreamer_next_frame s F p img h :
  nth_error F p = Some img ->
  VideoStreamer.next (at_pos s F p) h =
    (Yield (Datatypes.S (List.length h)) (at_pos s F (Datatypes.S p)),
     h ++ [img; bgr2rgb img]).
Proof.
  intros Hnth. unfold VideoStreamer.next, bind, cap_read. simpl.
  rewrite Hnth. unfold new_array, ret, cv2_cvtColor, bind. simpl.
  rewrite deref_new, length_app, <- app_assoc. simpl.
  now rewrite Nat.add_1_r.
Qed.

Lemma VideoStreamer_next_end s F p h :
  nth_error F p = None ->
  VideoStreamer.next (at_pos s F p) h =
    (if VideoStreamer.loop s then Again (at_pos s F 0)
     else Return (at_pos s F p), h).
Proof.
  intros Hnth. unfold VideoStreamer.next, bind, cap_read. simpl.
  rewrite Hnth. unfold ret. now destruct (VideoStreamer.loop s).
Qed.

(** Reading from position [p] to the end of the stream: one frame a turn,
    converted, in the order of the stream. *)
Lemma VideoStreamer_run_pass s F n : forall p h,
  p + n = List.length F ->
  exists ys h',
    run VideoStreamer.next n (at_pos s F p) h =
      (mkRun ys (map bgr2rgb (skipn p F)) (at_pos s F (List.length F)) false, h').
Proof.
  induction n as [|n IH]; intros p h Hlen.
  - exists [], h. simpl. unfold ret.
    rewrite skipn_all2 by lia. replace p with (List.length F) by lia.
    reflexivity.
  - destruct (nth_error F p) as [img|] eqn:Hnth.
    2:{ apply nth_error_None in Hnth. lia. }
    destruct (IH (Datatypes.S p) (h ++ [img; bgr2rgb img])) as (ys & h' & Hrun);
      [lia|].
    exists (Datatypes.S (List.length h) :: ys), h'.
    cbn [run]. unfold bind at 1.
    rewrite (VideoStreamer_next_frame s F p img h Hnth).
    unfold bind, peek, ret.
    change (VideoStreamer.set_cap (at_pos s F (Datatypes.S p)))
      with (VideoStreamer.set_cap s) in Hrun.
    rewrite Hrun. cbn [yields frames state finished].
    replace (deref (h ++ [img; bgr2rgb img]) (Datatypes.S (List.length h)))
      with (bgr2rgb img).
    2:{ replace (h ++ [img; bgr2rgb img]) with ((h ++ [img]) ++ [bgr2rgb img])
          by now rewrite <- app_assoc.
        replace (Datatypes.S (List.length h)) with (List.length (h ++ [img]))
          by (rewrite length_app; simpl; lia).
        now rewrite deref_new. }
    now rewrite (skipn_nth_error F p img Hnth).
Qed.

(** Without [loop]: the whole stream once, then the generator returns. *)
Lemma VideoStreamer_run_once s F h fuel :
  VideoStreamer.loop s = false ->
  List.length F < fuel ->
  exists ys h',
    run VideoStreamer.next fuel (at_pos s F 0) h =
      (mkRun ys (map bgr2rgb F) (at_pos s F (List.length F)) true, h').
Proof.
  intros Hloop Hfuel.
  destruct (VideoStreamer_run_pass s F (List.length F) 0 h eq_refl)
    as (ys & h' & Hpass).
  exists ys, h'.
  replace fuel with (List.length F + Datatypes.S (fuel - List.length F - 1))
    by lia.
  rewrite run_app, Hpass. cbn [finished state run]. unfold bind at 1.
  rewrite VideoStreamer_next_end by (apply nth_error_None; lia).
  simpl. rewrite Hloop. unfold ret. simpl. now rewrite !app_nil_r.
Qed.

(** With [loop]: the whole stream, one more turn to seek back, and the
    streamer is where it started. *)
Lemma VideoStreamer_run_periods s F m : forall h,
  VideoStreamer.loop s = true ->
  exists ys h',
    run VideoStreamer.next (m * Datatypes.S (List.length F)) (at_pos s F 0) h =
      (mkRun ys (List.concat (repeat (map bgr2rgb F) m)) (at_pos s F 0) false, h').
Proof.
  intros h Hloop. revert h. induction m as [|m IH]; intros h.
  - exists [], h. reflexivity.
  - destruct (VideoStreamer_run_pass s F (List.length F) 0 h eq_refl)
      as (ys1 & h1 & Hpass).
    destruct (IH h1) as (ys2 & h2 & Hrest).
    exists (ys1 ++ ys2), h2.
    replace (Datatypes.S m * Datatypes.S (List.length F))
      with (List.length F + Datatypes.S (m * Datatypes.S (List.length F)))
      by lia.
    rewrite run_app, Hpass. cbn [finished state run]. unfold bind at 1.
    rewrite VideoStreamer_next_end by (apply nth_error_None; lia).
    rewrite Hloop.
    change (VideoStreamer.set_cap (at_pos s F (List.length F)))
      with (VideoStreamer.set_cap s).
    rewrite Hrest. reflexivity.
Qed.

Lemma VideoStreamer_loop_set_cap s c :
  VideoStreamer.loop (VideoStreamer.set_cap s c) = VideoStreamer.loop s.
Proof. reflexivity. Qed.

(** With [loop] no turn of the generator returns. *)
Lemma VideoStreamer_never_returns fuel : forall s h,
  VideoStreamer.loop s = true ->
  finished (fst (run VideoStreamer.next fuel s h)) = false.
Proof.
  induction fuel as [|fuel IH]; intros s h Hloop; [reflexivity|].
  rewrite (VideoStreamer_at_pos s). cbn [run]. unfold bind at 1.
  destruct (nth_error (cap_frames (VideoStreamer.cap s))
                      (cap_pos (VideoStreamer.cap s))) as [img|] eqn:Hnth.
  - rewrite (VideoStreamer_next_frame s _ _ img h Hnth).
    unfold bind, peek, ret.
    specialize (IH (at_pos s (cap_frames (VideoStreamer.cap s))
                      (Datatypes.S (cap_pos (VideoStreamer.cap s))))
                   (h ++ [img; bgr2rgb img]) Hloop).
    destruct (run VideoStreamer.next fuel _ (h ++ [img; bgr2rgb img])).
    exact IH.
  - rewrite (VideoStreamer_next_end s _ _ h Hnth), Hloop.
    apply IH. exact Hloop.
Qed.

Lemma nth_error_concat_repeat {A} (P : list A) (m k : nat) :
  k < m * List.length P ->
  nth_error (List.concat (repeat P m)) k = nth_error P (k mod List.length P).
Proof.
  revert k. induction m as [|m IH]; intros k Hk; [lia|].
  assert (HP : List.length P <> 0) by (intros E; rewrite E in Hk; lia).
  simpl. destruct (Nat.lt_ge_cases k (List.length P)) as [Hlt|Hge].
  - rewrite nth_error_app1 by exact Hlt. now rewrite Nat.mod_small.
  - rewrite nth_error_app2 by exact Hge.
    rewrite IH by (simpl in Hk; lia).
    f_equal.
    replace k with ((k - List.length P) + 1 * List.length P) at 2 by lia.
    now rewrite Nat.Div0.mod_add.
Qed.

Lemma VideoStreamer_run_empty s fuel : forall p h,
  VideoStreamer.loop s = true ->
  yields (fst (run VideoStreamer.next fuel (at_pos s [] p) h)) = [] /\
  snd (run VideoStreamer.next fuel (at_pos s [] p) h) = h.
Proof.
  induction fuel as [|fuel IH]; intros p h Hloop; [now split|].
  assert (Hstep : run VideoStreamer.next (Datatypes.S fuel) (at_pos s [] p) h =
                  run VideoStreamer.next fuel (at_pos s [] 0) h).
  { cbn [run]. unfold bind at 1.
    rewrite VideoStreamer_next_end by now destruct p.
    now rewrite Hloop. }
  rewrite Hstep. now apply IH.
Qed.

Lemma VideoStreamer_init_ok w input_path loop h0 s h :
  VideoStreamer.init w input_path loop h0 = (Ok s, h) ->
  exists F,
    video_data w input_path = Some F /\ h = h0 /\
    s = {| VideoStreamer.loop := loop; VideoStreamer.media_type := VIDEO;
           VideoStreamer.cap := {| cap_frames := F; cap_pos := 0 |} |}.
Proof.
  unfold VideoStreamer.init.
  destruct (video_data w input_path) as [F|]; [|discriminate].
  unfold ret. intros [= <- <-]. now exists F.
Qed.

(** C5.  A [VideoStreamer] opened on a stream of three frames yields,
    without [loop], the three frames in order and returns; with [loop],
    its k-th frame (counting from zero) is frame [k mod 3] of the stream,
    for every k, and it does not return. *)
Theorem VideoStreamer_three_frames (w : World) (input_path : string)
  (loop : bool) (h0 : Heap) (s : VideoStreamer.t) (h : Heap)
  (f0 f1 f2 : Frame) :
  video_data w input_path = Some [f0; f1; f2] ->
  VideoStreamer.init w input_path loop h0 = (Ok s, h) ->
  (loop = false -> forall fuel, 4 <= fuel ->
     let r := fst (run VideoStreamer.next fuel (VideoStreamer.iter s) h) in
     frames r = [bgr2rgb f0; bgr2rgb f1; bgr2rgb f2] /\ finished r = true) /\
  (loop = true -> forall k fuel, 4 * (k / 3 + 1) <= fuel ->
     let r := fst (run VideoStreamer.next fuel (VideoStreamer.iter s) h) in
     nth_error (frames r) k =
       nth_error [bgr2rgb f0; bgr2rgb f1; bgr2rgb f2] (k mod 3) /\
     finished r = false).
Proof.
  intros Hdata Hinit.
  destruct (VideoStreamer_init_ok _ _ _ _ _ _ Hinit) as (F & HF & -> & Hs).
  rewrite Hdata in HF. injection HF as <-.
  unfold VideoStreamer.iter. rewrite (VideoStreamer_at_pos s).
  assert (Hl : VideoStreamer.loop s = loop) by now rewrite Hs.
  replace (cap_frames (VideoStreamer.cap s)) with [f0; f1; f2] by now rewrite Hs.
  replace (cap_pos (VideoStreamer.cap s)) with 0 by now rewrite Hs.
  clear Hs Hinit Hdata. split.
  - intros -> fuel Hfuel. cbv zeta.
    destruct (VideoStreamer_run_once s [f0; f1; f2] h0 fuel Hl)
      as (ys & h' & Hrun); [simpl; lia|].
    rewrite Hrun. now split.
  - intros -> k fuel Hfuel. cbv zeta. split.
    2:{ now apply VideoStreamer_never_returns. }
    destruct (VideoStreamer_run_periods s [f0; f1; f2] (k / 3 + 1) h0 Hl)
      as (ys & h' & Hrun).
    change (Datatypes.S (List.length [f0; f1; f2])) with 4 in Hrun.
    replace fuel with ((k / 3 + 1) * 4 + (fuel - (k / 3 + 1) * 4)) by lia.
    rewrite run_app, Hrun. cbn [finished state].
    destruct (run VideoStreamer.next _ (at_pos s [f0; f1; f2] 0) h') as [r2 h2].
    cbn [fst frames].
    set (P := map bgr2rgb [f0; f1; f2]).
    assert (Hk : k < (k / 3 + 1) * List.length P).
    { change (List.length P) with 3.
      pose proof (Nat.div_mod_eq k 3). pose proof (Nat.mod_upper_bound k 3).
      lia. }
    pose proof (nth_error_concat_repeat P _ _ Hk) as Hnth.
    change (List.length P) with 3 in Hnth.
    rewrite nth_error_app1; [exact Hnth|].
    apply nth_error_Some. rewrite Hnth. apply nth_error_Some.
    change (List.length P) with 3. apply Nat.mod_upper_bound. lia.
Qed.

(** [VideoStreamer_three_frames] on [clip.mp4]: the three frames without
    [loop]; frame 7 of the looping sequence is frame 1 of the stream. *)
Lemma VideoStreamer_three_frames_witness :
  frames (fst (run VideoStreamer.next 4
    (VideoStreamer.iter
       {| VideoStreamer.loop := false; VideoStreamer.media_type := VIDEO;
          VideoStreamer.cap :=
            {| cap_frames := [frame0; frame1; frame2]; cap_pos := 0 |} |}) []))
    = [bgr2rgb frame0; bgr2rgb frame1; bgr2rgb frame2] /\
  nth_error (frames (fst (run VideoStreamer.next 12
    (VideoStreamer.iter
       {| VideoStreamer.loop := true; VideoStreamer.media_type := VIDEO;
          VideoStreamer.cap :=
            {| cap_frames := [frame0; frame1; frame2]; cap_pos := 0 |} |}) [])))
    7 = Some (bgr2rgb frame1).
Proof.
  split.
  - destruct (VideoStreamer_three_frames demo "clip.mp4" false [] _ []
                frame0 frame1 frame2 eq_refl eq_refl) as [Honce _].
    apply (Honce eq_refl 4). lia.
  - destruct (VideoStreamer_three_frames demo "clip.mp4" true [] _ []
                frame0 frame1 frame2 eq_refl eq_refl) as [_ Hloop].
    apply (Hloop eq_refl 7 12). simpl. lia.
Defined.

(** C10.  A [VideoStreamer] with [loop] never returns, wherever its
    capture stands: a read that fails puts the capture back at frame zero
    and the loop goes round again, and when the stream has no frame at all
    the turns go by without a single yield. *)
Theorem VideoStreamer_loop_never_returns (s : VideoStreamer.t) :
  VideoStreamer.loop s = true ->
  (forall fuel h,
     finished (fst (run VideoStreamer.next fuel (VideoStreamer.iter s) h))
       = false) /\
  (forall h,
     nth_error (cap_frames (VideoStreamer.cap s))
               (cap_pos (VideoStreamer.cap s)) = None ->
     VideoStreamer.next s h =
       (Again (VideoStreamer.set_cap s (cap_set_pos (VideoStreamer.cap s) 0)),
        h)) /\
  (cap_frames (VideoStreamer.cap s) = [] ->
   forall fuel h,
     run VideoStreamer.next fuel (VideoStreamer.iter s) h =
       (mkRun [] [] (state (fst (run VideoStreamer.next fuel s h))) false, h)).
Proof.
  intros Hloop. repeat apply conj.
  - intros fuel h. now apply VideoStreamer_never_returns.
  - intros h Hnth. rewrite (VideoStreamer_at_pos s) at 1.
    rewrite VideoStreamer_next_end by exact Hnth. now rewrite Hloop.
  - intros Hempty fuel h. unfold VideoStreamer.iter.
    pose proof (VideoStreamer_never_returns fuel s h Hloop) as Hfin.
    pose proof (run_length VideoStreamer.next fuel s h) as Hlen.
    revert Hfin Hlen. rewrite (VideoStreamer_at_pos s) at 1 2 3 4 5.
    rewrite Hempty.
    destruct (VideoStreamer_run_empty s fuel (cap_pos (VideoStreamer.cap s))
                h Hloop) as [Hys Hh].
    revert Hys Hh.
    destruct (run VideoStreamer.next fuel _ h) as [[ys fs st fin] h1].
    simpl. intros -> -> -> Hlen. destruct fs; [reflexivity|discriminate].
Qed.

(** [VideoStreamer_loop_never_returns] on a stream without frames: nine
    turns, no yield, no return. *)
Lemma VideoStreamer_loop_never_returns_witness :
  run VideoStreamer.next 9
    {| VideoStreamer.loop := true; VideoStreamer.media_type := VIDEO;
       VideoStreamer.cap := {| cap_frames := []; cap_pos := 0 |} |} [] =
    (mkRun [] []
       {| VideoStreamer.loop := true; VideoStreamer.media_type := VIDEO;
          VideoStreamer.cap := {| cap_frames := []; cap_pos := 0 |} |} false,
     []).
Proof.
  exact (proj2 (proj2 (VideoStreamer_loop_never_returns
     {| VideoStreamer.loop := true; VideoStreamer.media_type := VIDEO;
        VideoStreamer.cap := {| cap_frames := []; cap_pos := 0 |} |} eq_refl))
     eq_refl 9 []).
Defined.

(** ** DirStreamer *)

Local Abbreviation at_id s i := (DirStreamer.set_file_id s i).

Lemma DirStreamer_at_id (s : DirStreamer.t) : s = at_id s (DirStreamer.file_id s).
Proof. now destruct s. Qed.

Lemma DirStreamer_next_entry w s i h :
  i < List.length (DirStreamer.names s) ->
  DirStreamer.next w (at_id s i) h =
    match imread_data w (path_join (DirStreamer.dir s)
                                   (nth i (DirStreamer.names s) "")) with
    | Some img =>
        (Yield (Datatypes.S (List.length h)) (at_id s (next_id s i)),
         h ++ [img; bgr2rgb img])
    | None => (Again (at_id s (next_id s i)), h)
    end.
Proof.
  intros Hi. unfold DirStreamer.next, next_id. cbn [DirStreamer.set_file_id
    DirStreamer.file_id DirStreamer.names DirStreamer.dir DirStreamer.loop].
  apply Nat.ltb_lt in Hi. rewrite Hi.
  unfold bind, cv2_imread.
  destruct (imread_data w _) as [img|].
  - unfold ret, bind, cv2_cvtColor. unfold new_array.
    rewrite deref_new, length_app, <- app_assoc. simpl List.length.
    rewrite Nat.add_1_r.
    now destruct (i <? List.length (DirStreamer.names s) - 1).
  - unfold ret. now destruct (i <? List.length (DirStreamer.names s) - 1).
Qed.

Lemma DirStreamer_next_done w s i h :
  List.length (DirStreamer.names s) <= i ->
  DirStreamer.next w (at_id s i) h = (Return (at_id s i), h).
Proof.
  intros Hi. unfold DirStreamer.next. cbn [DirStreamer.set_file_id
    DirStreamer.file_id DirStreamer.names].
  apply Nat.ltb_ge in Hi. now rewrite Hi.
Qed.

Lemma entry_frames_skipn w dir names i :
  i < List.length names ->
  entry_frames w dir (skipn i names) =
    match imread_data w (path_join dir (nth i names "")) with
    | Some img => [bgr2rgb img]
    | None => []
    end ++ entry_frames w dir (skipn (Datatypes.S i) names).
Proof.
  intros Hi.
  destruct (nth_error names i) as [name|] eqn:Hnth.
  2:{ apply nth_error_None in Hnth. lia. }
  rewrite (skipn_nth_error names i name Hnth).
  now rewrite (nth_error_nth names i "" Hnth).
Qed.

Lemma deref_converted (h : Heap) (img : Frame) :
  deref (h ++ [img; bgr2rgb img]) (Datatypes.S (List.length h)) = bgr2rgb img.
Proof.
  replace (h ++ [img; bgr2rgb img]) with ((h ++ [img]) ++ [bgr2rgb img])
    by now rewrite <- app_assoc.
  replace (Datatypes.S (List.length h)) with (List.length (h ++ [img]))
    by (rewrite length_app; simpl; lia).
  apply deref_new.
Qed.

(** One turn on entry [i], then whatever [n] more turns do. *)
Lemma DirStreamer_run_step w s i n h :
  i < List.length (DirStreamer.names s) ->
  run (DirStreamer.next w) (Datatypes.S n) (at_id s i) h =
    match imread_data w (path_join (DirStreamer.dir s)
                                   (nth i (DirStreamer.names s) "")) with
    | Some img =>
        let (r, h') := run (DirStreamer.next w) n (at_id s (next_id s i))
                           (h ++ [img; bgr2rgb img]) in
        (mkRun (Datatypes.S (List.length h) :: yields r)
               (bgr2rgb img :: frames r) (state r) (finished r), h')
    | None => run (DirStreamer.next w) n (at_id s (next_id s i)) h
    end.
Proof.
  intros Hi. cbn [run]. unfold bind at 1.
  rewrite DirStreamer_next_entry by exact Hi.
  destruct (imread_data w _) as [img|]; [|reflexivity].
  unfold bind, peek, ret. now rewrite deref_converted.
Qed.

(** From entry [i] to the last entry: the entries that decode, in the
    order of [names]; the cursor ends at zero with [loop], past the
    last entry without. *)
Lemma DirStreamer_run_pass w s n : forall i h,
  i + Datatypes.S n = List.length (DirStreamer.names s) ->
  exists ys h',
    run (DirStreamer.next w) (Datatypes.S n) (at_id s i) h =
      (mkRun ys
         (entry_frames w (DirStreamer.dir s) (skipn i (DirStreamer.names s)))
         (at_id s (if DirStreamer.loop s then 0
                   else List.length (DirStreamer.names s)))
         false, h').
Proof.
  induction n as [|n IH]; intros i h Hlen.
  - rewrite DirStreamer_run_step by lia.
    rewrite entry_frames_skipn by lia.
    rewrite (skipn_all2 (n := Datatypes.S i)) by lia.
    assert (Hnext : next_id s i =
                    if DirStreamer.loop s then 0
                    else List.length (DirStreamer.names s)).
    { unfold next_id.
      replace (i <? List.length (DirStreamer.names s) - 1) with false
        by (symmetry; apply Nat.ltb_ge; lia).
      destruct (DirStreamer.loop s); simpl; lia. }
    rewrite Hnext. cbn [run]. unfold ret.
    destruct (imread_data w _) as [img|]; eexists _, _; reflexivity.
  - rewrite DirStreamer_run_step by lia.
    rewrite entry_frames_skipn by lia.
    assert (Hnext : next_id s i = Datatypes.S i).
    { unfold next_id.
      replace (i <? List.length (DirStreamer.names s) - 1) with true
        by (symmetry; apply Nat.ltb_lt; lia).
      lia. }
    rewrite Hnext.
    destruct (imread_data w _) as [img|].
    + destruct (IH (Datatypes.S i) (h ++ [img; bgr2rgb img])) as (ys & h' & Hrun);
        [lia|].
      rewrite Hrun. eexists _, _. reflexivity.
    + apply IH. lia.
Qed.

(** Past the last entry the generator returns at once. *)
Lemma DirStreamer_run_done w s i n h :
  List.length (DirStreamer.names s) <= i ->
  run (DirStreamer.next w) (Datatypes.S n) (at_id s i) h =
    (mkRun [] [] (at_id s i) true, h).
Proof.
  intros Hi. cbn [run]. unfold bind.
  now rewrite DirStreamer_next_done by exact Hi.
Qed.

(** What [__init__] leaves behind when it succeeds. *)
Lemma DirStreamer_init_ok w input_path loop h0 s h :
  DirStreamer.init w input_path loop h0 = (Ok s, h) ->
  s = {| DirStreamer.loop := loop; DirStreamer.media_type := DIR;
         DirStreamer.dir := input_path;
         DirStreamer.names := sorted (listdir w input_path);
         DirStreamer.file_id := 0 |} /\
  sorted (listdir w input_path) <> [].
Proof.
  unfold DirStreamer.init.
  destruct (isdir w input_path); simpl; [|discriminate].
  destruct (sorted (listdir w input_path)) as [|n0 rest]; [discriminate|].
  unfold bind.
  destruct (DirStreamer.any_readable w input_path (n0 :: rest) h0) as [[|] h1];
    unfold ret; [|discriminate].
  intros [= <- <-]. split; [reflexivity|discriminate].
Qed.

(** [sorted] orders by [String.leb], the byte-wise lexicographic order. *)
Lemma String_compare_trans (s1 : string) : forall s2 s3,
  String.compare s1 s2 <> Gt -> String.compare s2 s3 <> Gt ->
  String.compare s1 s3 <> Gt.
Proof.
  induction s1 as [|a s1 IH]; intros [|b s2] [|c s3]; simpl; try congruence.
  unfold Ascii.compare.
  destruct (N.compare_spec (N_of_ascii a) (N_of_ascii b)) as [Hab|Hab|Hab];
    destruct (N.compare_spec (N_of_ascii b) (N_of_ascii c)) as [Hbc|Hbc|Hbc];
    destruct (N.compare_spec (N_of_ascii a) (N_of_ascii c)) as [Hac|Hac|Hac];
    intros Hle1 Hle2; try congruence; try lia.
  now apply (IH s2 s3).
Qed.

Lemma String_leb_trans (s1 s2 s3 : string) :
  String.leb s1 s2 = true -> String.leb s2 s3 = true -> String.leb s1 s3 = true.
Proof.
  unfold String.leb. intros H1 H2.
  pose proof (String_compare_trans s1 s2 s3) as Ht.
  destruct (String.compare s1 s2), (String.compare s2 s3),
    (String.compare s1 s3); try reflexivity; try discriminate;
    exfalso; apply Ht; congruence.
Qed.

Lemma sorted_StronglySorted (l : list string) :
  StronglySorted (fun a b => String.leb a b = true) (sorted l).
Proof.
  apply Sorted_StronglySorted.
  - intros a b c. apply String_leb_trans.
  - apply StrSort.Sorted_sort.
Qed.

(** C7.  A [DirStreamer] that was constructed holds the entries of the
    directory as listed at construction, sorted lexicographically, and a
    pass of its iteration delivers the entries that decode in the order
    of that list, whatever the directory holds by then; the list itself
    is not touched.  (The witness is the directory listed as
    [b.png, a.png].) *)
Theorem DirStreamer_lexicographic (w : World) (input_path : string)
  (loop : bool) (h0 : Heap) (s : DirStreamer.t) (h : Heap) :
  DirStreamer.init w input_path loop h0 = (Ok s, h) ->
  DirStreamer.names s = sorted (listdir w input_path) /\
  StronglySorted (fun a b => String.leb a b = true) (DirStreamer.names s) /\
  Permutation (listdir w input_path) (DirStreamer.names s) /\
  forall w' h1,
    let r := fst (run (DirStreamer.next w')
                      (List.length (DirStreamer.names s))
                      (DirStreamer.iter s) h1) in
    frames r = entry_frames w' input_path (DirStreamer.names s) /\
    DirStreamer.names (state r) = DirStreamer.names s /\
    finished r = false.
Proof.
  intros Hinit. destruct (DirStreamer_init_ok _ _ _ _ _ _ Hinit) as [Hs Hne].
  assert (Hnames : DirStreamer.names s = sorted (listdir w input_path))
    by now rewrite Hs.
  assert (Hdir : DirStreamer.dir s = input_path) by now rewrite Hs.
  assert (Hid : DirStreamer.file_id s = 0) by now rewrite Hs.
  split; [exact Hnames|]. split; [|split].
  - rewrite Hnames. apply sorted_StronglySorted.
  - rewrite Hnames. apply StrSort.Permuted_sort.
  - intros w' h1. cbv zeta. unfold DirStreamer.iter.
    rewrite (DirStreamer_at_id s), Hid.
    change (DirStreamer.names (at_id s 0)) with (DirStreamer.names s).
    destruct (List.length (DirStreamer.names s)) as [|n] eqn:Hlen.
    { rewrite Hnames in Hlen. now destruct (sorted (listdir w input_path)). }
    destruct (DirStreamer_run_pass w' s n 0 h1) as (ys & h' & Hrun); [lia|].
    rewrite Hrun, Hdir. now repeat split.
Qed.

(** [DirStreamer_lexicographic] on [shots], listed as [b.png, a.png]: the
    frame of [a.png] comes first. *)
Lemma DirStreamer_lexicographic_witness :
  listdir demo "shots" = ["b.png"; "a.png"] /\
  frames (fst (run (DirStreamer.next demo) 2
    (DirStreamer.iter
       {| DirStreamer.loop := false; DirStreamer.media_type := DIR;
          DirStreamer.dir := "shots"; DirStreamer.names := ["a.png"; "b.png"];
          DirStreamer.file_id := 0 |}) [frame1])) =
    [bgr2rgb frame1; bgr2rgb frame2].
Proof.
  split; [reflexivity|].
  apply (DirStreamer_lexicographic demo "shots" false [] _ [frame1] eq_refl).
Defined.

(** C9.  The cursor [file_id] belongs to the object, not to the generator.
    For a [DirStreamer] constructed without [loop], an iteration that is
    run to its end leaves [file_id] at the number of entries, and from
    then on every iteration of the object returns at its first turn,
    having yielded nothing. *)
Theorem DirStreamer_single_pass (w : World) (input_path : string)
  (h0 : Heap) (s : DirStreamer.t) (h : Heap) :
  DirStreamer.init w input_path false h0 = (Ok s, h) ->
  forall w' h1 fuel,
    List.length (DirStreamer.names s) < fuel ->
    let r := fst (run (DirStreamer.next w') fuel (DirStreamer.iter s) h1) in
    finished r = true /\
    frames r = entry_frames w' input_path (DirStreamer.names s) /\
    DirStreamer.file_id (state r) = List.length (DirStreamer.names s) /\
    DirStreamer.names (state r) = DirStreamer.names s /\
    forall w'' h2 fuel',
      0 < fuel' ->
      run (DirStreamer.next w'') fuel' (DirStreamer.iter (state r)) h2 =
        (mkRun [] [] (state r) true, h2).
Proof.
  intros Hinit w' h1 fuel Hfuel. cbv zeta.
  destruct (DirStreamer_init_ok _ _ _ _ _ _ Hinit) as [Hs Hne].
  clear Hinit. subst s.
  set (s := {| DirStreamer.loop := false; DirStreamer.media_type := DIR;
               DirStreamer.dir := input_path;
               DirStreamer.names := sorted (listdir w input_path);
               DirStreamer.file_id := 0 |}) in *.
  change (DirStreamer.iter s) with (at_id s 0).
  change (sorted (listdir w input_path)) with (DirStreamer.names s) in Hne.
  destruct (List.length (DirStreamer.names s)) as [|n] eqn:Hlen.
  { now destruct (DirStreamer.names s). }
  destruct (DirStreamer_run_pass w' s n 0 h1) as (ys & h' & Hrun); [lia|].
  rewrite Hlen in Hrun. change (DirStreamer.loop s) with false in Hrun.
  replace fuel with (Datatypes.S n + Datatypes.S (fuel - n - 2)) by lia.
  rewrite run_app, Hrun. cbn [finished state].
  rewrite DirStreamer_run_done by lia.
  cbn [fst finished frames state yields]. rewrite !app_nil_r.
  repeat apply conj; try reflexivity.
  intros w'' h2 fuel' Hfuel'. destruct fuel' as [|fuel']; [lia|].
  apply DirStreamer_run_done.
  change (DirStreamer.names (at_id s (Datatypes.S n)))
    with (DirStreamer.names s). lia.
Qed.

(** [DirStreamer_single_pass] on [shots]: the cursor ends at 2 and a
    second iteration yields nothing. *)
Lemma DirStreamer_single_pass_witness :
  let s := {| DirStreamer.loop := false; DirStreamer.media_type := DIR;
              DirStreamer.dir := "shots";
              DirStreamer.names := ["a.png"; "b.png"];
              DirStreamer.file_id := 0 |} in
  let r := fst (run (DirStreamer.next demo) 3 (DirStreamer.iter s) [frame1]) in
  DirStreamer.file_id (state r) = 2 /\
  run (DirStreamer.next demo) 3 (DirStreamer.iter (state r)) [] =
    (mkRun [] [] (state r) true, []).
Proof.
  cbv zeta.
  destruct (DirStreamer_single_pass demo "shots" [] _ [frame1] eq_refl
              demo [frame1] 3) as (_ & _ & Hid & _ & Hagain).
  - simpl. lia.
  - split; [exact Hid|]. apply Hagain. lia.
Defined.

(** ** Which arrays are yielded *)

(** One turn of such a source: the heap grows, and a yielded reference is
    one of the new ones. *)
Lemma next_fresh w g h st h' :
  converts_each_frame g = true ->
  next w g h = (st, h') ->
  List.length h <= List.length h' /\
  match st with
  | Yield frame g' =>
      List.length h <= frame < List.length h' /\ converts_each_frame g' = true
  | Again g' | Return g' => converts_each_frame g' = true
  end.
Proof.
  destruct g as [g|g|g|g]; [discriminate| | |]; intros _; unfold next, bind.
  - rewrite (DirStreamer_at_id g).
    destruct (Nat.lt_ge_cases (DirStreamer.file_id g)
                              (List.length (DirStreamer.names g))) as [Hi|Hi].
    + rewrite DirStreamer_next_entry by exact Hi.
      destruct (imread_data w _) as [img|]; unfold ret; intros [= <- <-]; simpl.
      * rewrite length_app. simpl. lia.
      * lia.
    + rewrite DirStreamer_next_done by exact Hi.
      unfold ret. intros [= <- <-]. simpl. lia.
  - rewrite (VideoStreamer_at_pos g).
    destruct (nth_error (cap_frames (VideoStreamer.cap g))
                        (cap_pos (VideoStreamer.cap g))) as [img|] eqn:Hnth.
    + rewrite (VideoStreamer_next_frame g _ _ img h Hnth).
      unfold ret. intros [= <- <-]. simpl. rewrite length_app. simpl. lia.
    + rewrite (VideoStreamer_next_end g _ _ h Hnth).
      unfold ret. destruct (VideoStreamer.loop g); intros [= <- <-]; simpl; lia.
  - unfold CameraStreamer.next, bind, dev_read.
    destruct (dev_released (CameraStreamer.stream g)).
    + unfold ret. intros [= <- <-]. simpl. lia.
    + destruct (camera_data w _ _) as [img|].
      * unfold ret, bind, cv2_cvtColor. unfold new_array.
        intros [= <- <-]. simpl. rewrite !length_app. simpl. lia.
      * unfold ret. intros [= <- <-]. simpl. lia.
Qed.

Lemma run_fresh w fuel : forall g h,
  converts_each_frame g = true ->
  let (r, h') := run (next w) fuel g h in
  List.length h <= List.length h' /\
  Forall (fun frame => List.length h <= frame < List.length h') (yields r) /\
  NoDup (yields r).
Proof.
  induction fuel as [|fuel IH]; intros g h Hg.
  - simpl. unfold ret. repeat split; [lia|constructor|constructor].
  - cbn [run]. unfold bind at 1.
    destruct (next w g h) as [st h1] eqn:Hnext.
    destruct (next_fresh w g h st h1 Hg Hnext) as [Hgrow Hst].
    destruct st as [frame g'|g'|g'].
    + destruct Hst as [Hframe Hg']. unfold bind, peek, ret.
      specialize (IH g' h1 Hg').
      destruct (run (next w) fuel g' h1) as [r h2].
      destruct IH as (Hgrow' & Hall & Hnodup). cbn [yields].
      split; [lia|]. split.
      * constructor; [lia|].
        eapply Forall_impl; [|exact Hall]. simpl. intros; lia.
      * constructor; [|exact Hnodup].
        intros Hin. rewrite Forall_forall in Hall.
        specialize (Hall _ Hin). lia.
    + specialize (IH g' h1 Hst).
      destruct (run (next w) fuel g' h1) as [r h2].
      destruct IH as (Hgrow' & Hall & Hnodup).
      split; [lia|]. split; [|exact Hnodup].
      eapply Forall_impl; [|exact Hall]. simpl. intros; lia.
    + unfold ret. cbn [yields]. repeat split; [lia|constructor|constructor].
Qed.

(** An [ImageStreamer] hands out [self.image] at every yield. *)
Lemma run_image_shared w fuel : forall s at_ h,
  Forall (eq (ImageStreamer.image s))
         (yields (fst (run (next w) fuel (ImageGen (s, at_)) h))).
Proof.
  induction fuel as [|fuel IH]; intros s at_ h; [constructor|].
  cbn [run]. unfold bind at 1. unfold next, bind.
  assert (Hyield :
    forall h,
      Forall (eq (ImageStreamer.image s))
        (yields (fst
           ((seen <- peek (ImageStreamer.image s) ;;
             r <- run (next w) fuel (ImageGen (s, ImageStreamer.Yielded)) ;;
             ret (mkRun (ImageStreamer.image s :: yields r) (seen :: frames r)
                        (state r) (finished r))) h)))).
  { intros h1. unfold bind, peek, ret.
    specialize (IH s ImageStreamer.Yielded h1).
    destruct (run (next w) fuel _ h1) as [r h2]. simpl in *.
    now constructor. }
  destruct at_; simpl.
  - apply Hyield.
  - destruct (ImageStreamer.loop s); simpl; [apply Hyield|constructor].
Qed.

(** C8 (as amended).  A [DirStreamer], a [VideoStreamer] and a
    [CameraStreamer] yield at every turn an array allocated during that
    iteration, so no two yields are the same array and none is an array
    that existed before; an [ImageStreamer] yields the one array
    [self.image] every time. *)
Theorem yielded_arrays (w : World) (g : Gen) (h : Heap) (fuel : nat) :
  let r := fst (run (next w) fuel g h) in
  match g with
  | ImageGen (s, _) => Forall (eq (ImageStreamer.image s)) (yields r)
  | DirGen _ | VideoGen _ | CameraGen _ =>
      NoDup (yields r) /\
      Forall (fun frame => List.length h <= frame) (yields r)
  end.
Proof.
  cbv zeta.
  assert (Hfresh : converts_each_frame g = true ->
                   NoDup (yields (fst (run (next w) fuel g h))) /\
                   Forall (fun frame => List.length h <= frame)
                          (yields (fst (run (next w) fuel g h)))).
  { intros Hg. pose proof (run_fresh w fuel g h Hg) as H.
    destruct (run (next w) fuel g h) as [r h'].
    destruct H as (_ & Hall & Hnodup). split; [exact Hnodup|].
    eapply Forall_impl; [|exact Hall]. simpl. intros; lia. }
  destruct g as [[s at_]|g|g|g]; try (now apply Hfresh).
  apply run_image_shared.
Qed.

(** C8 fails as stated: the [ImageStreamer] constructed on [pic.png] with
    [loop] yields array 1 at its first and at its second turn. *)
Lemma image_yields_alias :
  exists s h,
    ImageStreamer.init demo "pic.png" true [] = (Ok s, h) /\
    yields (fst (run (next demo) 2 (ImageGen (ImageStreamer.iter s)) h))
      = [1; 1] /\
    ~ NoDup (yields (fst (run (next demo) 2
                            (ImageGen (ImageStreamer.iter s)) h))).
Proof.
  eexists _, _. split; [reflexivity|]. split; [reflexivity|].
  simpl. intros Hnodup. inversion Hnodup as [|x l Hnotin _]; subst.
  apply Hnotin. now left.
Qed.

(** ** ThreadedStreamer *)

Section ThreadedOrder.

Context {S : Type} (inner_next : S -> M (Step S)).
Context (hangs : S -> Heap -> bool) (buffer_size : nat).
Context (s0 : S) (h0 : Heap).

Local Abbreviation step' := (step S inner_next hangs buffer_size).
Local Abbreviation steps' := (steps S inner_next hangs buffer_size).

(** One more turn of a generator that has not returned. *)
Lemma run_snoc (k : nat) (s : S) (h : Heap) (r : Run S) (h1 : Heap) :
  run inner_next k s h = (r, h1) ->
  finished r = false ->
  run inner_next (k + 1) s h =
    match inner_next (state r) h1 with
    | (Yield frame s', h2) =>
        (mkRun (yields r ++ [frame]) (frames r ++ [deref h2 frame]) s' false, h2)
    | (Again s', h2) => (mkRun (yields r) (frames r) s' false, h2)
    | (Return s', h2) => (mkRun (yields r) (frames r) s' true, h2)
    end.
Proof.
  intros Hrun Hfin. rewrite run_app, Hrun, Hfin. cbn [run]. unfold bind at 1.
  destruct (inner_next (state r) h1) as [[frame s'|s'|s'] h2].
  - unfold bind, peek, ret. reflexivity.
  - unfold ret. now rewrite !app_nil_r.
  - unfold ret. now rewrite !app_nil_r.
Qed.

Local Abbreviation invariant' := (invariant inner_next s0 h0).

Lemma invariant_start : invariant' (start s0 h0).
Proof.
  unfold invariant, start, delivered. simpl.
  split; [constructor|]. split; [discriminate|].
  exists 0, (mkRun [] [] s0 false). now repeat split.
Qed.

Lemma delivered_get (m : Heap) (out : list ndarray) (x : Frame) :
  Forall (fun r => r < List.length m) out ->
  map (deref (m ++ [x])) (out ++ [List.length m]) = map (deref m) out ++ [x].
Proof.
  intros Hvalid. rewrite map_app. simpl. rewrite deref_new. f_equal.
  apply map_ext_in. intros r Hr. apply deref_old.
  rewrite Forall_forall in Hvalid. now apply Hvalid.
Qed.

(** A step of the parent alone: what is known of the child stands, and
    a terminated child only goes with a closed generator. *)
Ltac consumer_moves :=
  match goal with
  | Hproc : match ?p with _ => _ end |- match ?p with _ => _ end =>
      destruct p; [exact Hproc | exact Hproc | exact Hproc
                  | destruct Hproc as [Hc _]; discriminate Hc]
  end.

Lemma invariant_step (st st' : Sys S) :
  invariant' st -> step' st st' -> invariant' st'.
Proof.
  intros (Hvalid & Hexh & Hproc) Hstep.
  destruct Hstep; unfold invariant, delivered in *; cbn [process buffer
    consumer memory received] in *.
  - (* p_yield *)
    split; [exact Hvalid|]. split.
    { intros Hc. destruct (Hexh Hc) as [_ Hdead]. discriminate. }
    destruct Hproc as (k & r & Hrun & Hfin & Hst & Hfr). subst s.
    pose proof (run_snoc k s0 h0 r h Hrun Hfin) as Hsnoc.
    rewrite H0 in Hsnoc.
    eexists _, _. split; [exact Hsnoc|]. cbn [finished state frames].
    repeat split. now rewrite Hfr, <- app_assoc.
  - (* p_again *)
    split; [exact Hvalid|]. split.
    { intros Hc. destruct (Hexh Hc) as [_ Hdead]. discriminate. }
    destruct Hproc as (k & r & Hrun & Hfin & Hst & Hfr). subst s.
    pose proof (run_snoc k s0 h0 r h Hrun Hfin) as Hsnoc.
    rewrite H0 in Hsnoc.
    eexists _, _. split; [exact Hsnoc|]. now repeat split.
  - (* p_return *)
    split; [exact Hvalid|]. split.
    { intros Hc. destruct (Hexh Hc) as [_ Hdead]. discriminate. }
    destruct Hproc as (k & r & Hrun & Hfin & Hst & Hfr). subst s.
    pose proof (run_snoc k s0 h0 r h Hrun Hfin) as Hsnoc.
    rewrite H0 in Hsnoc.
    eexists _, _, _. split; [exact Hsnoc|]. now repeat split.
  - (* p_put *)
    split; [exact Hvalid|]. split.
    { intros Hc. destruct (Hexh Hc) as [_ Hdead]. discriminate. }
    destruct Hproc as (k & r & Hrun & Hfin & Hst & Hfr).
    exists k, r. now repeat split.
  - (* c_enter *)
    split; [exact Hvalid|]. split; [discriminate|]. consumer_moves.
  - (* c_exit *)
    split; [exact Hvalid|]. split; [now intros _|]. consumer_moves.
  - (* c_get *)
    assert (Hd : map (deref (m ++ [x])) (out ++ [List.length m]) ++ q =
                 map (deref m) out ++ x :: q).
    { rewrite delivered_get by exact Hvalid. now rewrite <- app_assoc. }
    split.
    { apply Forall_app. split.
      - eapply Forall_impl; [|exact Hvalid]. simpl. intros r Hr.
        rewrite length_app. simpl. lia.
      - constructor; [|constructor]. rewrite length_app. simpl. lia. }
    split; [discriminate|].
    destruct p as [s h|frame s h| |].
    + destruct Hproc as (k & r & Hrun & Hfin & Hst & Hfr).
      exists k, r. repeat split; try assumption. now rewrite Hd.
    + destruct Hproc as (k & r & Hrun & Hfin & Hst & Hfr).
      exists k, r. repeat split; try assumption.
      rewrite app_assoc, Hd, Hfr. now rewrite <- !app_assoc.
    + destruct Hproc as (k & r & h & Hrun & Hfin & Hfr).
      exists k, r, h. repeat split; try assumption. now rewrite Hd.
    + destruct Hproc as [Hc _]. discriminate.
  - (* c_timeout *)
    split; [exact Hvalid|]. split; [discriminate|]. consumer_moves.
  - (* c_resume *)
    split; [exact Hvalid|]. split; [discriminate|]. consumer_moves.
  - (* c_close *)
    split; [exact Hvalid|]. split; [discriminate|].
    destruct p as [s h|frame s h| |]; cbn [is_alive].
    + destruct Hproc as (k & r & Hrun & Hfin & Hst & Hfr).
      split; [reflexivity|]. exists k, r, h, []. split; [exact Hrun|].
      now rewrite app_nil_r.
    + destruct Hproc as (k & r & Hrun & Hfin & Hst & Hfr).
      split; [reflexivity|]. exists k, r, h, [deref h frame]. now split.
    + exact Hproc.
    + destruct Hproc as [Hc _]. discriminate.
Qed.

Lemma invariant_steps (st : Sys S) :
  steps' (start s0 h0) st -> invariant' st.
Proof.
  intros Hsteps. remember (start s0 h0) as st0 eqn:Hst0.
  induction Hsteps as [|st1 st2 st3 _ IH Hstep]; subst.
  - apply invariant_start.
  - eapply invariant_step; [apply IH; reflexivity|exact Hstep].
Qed.

End ThreadedOrder.

Section ThreadedComplete.

Context {S : Type} (inner_next : S -> M (Step S)).
Context (hangs : S -> Heap -> bool) (buffer_size : nat).

Local Abbreviation step' := (step S inner_next hangs buffer_size).
Local Abbreviation steps' := (steps S inner_next hangs buffer_size).






End ThreadedComplete.




(** * Further properties of the streamers *)

(** ** CameraStreamer.__iter__ *)

(** The streamer [s] with its open stream at read number [p]. *)
Local Abbreviation at_read s p :=
  (CameraStreamer.set_stream s
     {| dev_index := dev_index (CameraStreamer.stream s); dev_pos := p;
        dev_released := false |}).

Lemma CameraStreamer_next_frame w s p img h :
  camera_data w (dev_index (CameraStreamer.stream s)) p = Some img ->
  CameraStreamer.next w (at_read s p) h =
    (Yield (Datatypes.S (List.length h)) (at_read s (Datatypes.S p)),
     h ++ [img; bgr2rgb img]).
Proof.
  intros Hdata. unfold CameraStreamer.next, bind, dev_read. simpl.
  rewrite Hdata. unfold ret, bind, cv2_cvtColor. unfold new_array.
  rewrite deref_new, length_app, <- app_assoc. simpl.
  now rewrite Nat.add_1_r.
Qed.

Lemma CameraStreamer_next_break w s p h :
  camera_data w (dev_index (CameraStreamer.stream s)) p = None ->
  CameraStreamer.next w (at_read s p) h =
    (Return (CameraStreamer.set_stream s
               {| dev_index := dev_index (CameraStreamer.stream s);
                  dev_pos := p; dev_released := true |}), h).
Proof.
  intros Hdata. unfold CameraStreamer.next, bind, dev_read. simpl.
  now rewrite Hdata.
Qed.

Lemma CameraStreamer_next_released w s h :
  dev_released (CameraStreamer.stream s) = true ->
  CameraStreamer.next w s h = (Return s, h).
Proof.
  intros Hrel. unfold CameraStreamer.next, bind, dev_read. rewrite Hrel.
  unfold ret. destruct s as [m c [i p r]]. simpl in *. now subst r.
Qed.

Lemma CameraStreamer_run_reads w s fs : forall p h fuel,
  (forall k, k < List.length fs ->
     camera_data w (dev_index (CameraStreamer.stream s)) (p + k) =
       nth_error fs k) ->
  camera_data w (dev_index (CameraStreamer.stream s)) (p + List.length fs)
    = None ->
  List.length fs < fuel ->
  exists ys h',
    run (CameraStreamer.next w) fuel (at_read s p) h =
      (mkRun ys (map bgr2rgb fs)
         (CameraStreamer.set_stream s
            {| dev_index := dev_index (CameraStreamer.stream s);
               dev_pos := p + List.length fs; dev_released := true |})
         true, h').
Proof.
  induction fs as [|f fs IH]; intros p h fuel Hdata Hend Hfuel.
  - destruct fuel as [|fuel]; [simpl in Hfuel; lia|].
    exists [], h. cbn [run]. unfold bind.
    simpl in Hend. rewrite Nat.add_0_r in Hend.
    rewrite CameraStreamer_next_break by exact Hend.
    simpl. now rewrite Nat.add_0_r.
  - destruct fuel as [|fuel]; [simpl in Hfuel; lia|].
    assert (Hf : camera_data w (dev_index (CameraStreamer.stream s)) p = Some f).
    { specialize (Hdata 0). rewrite Nat.add_0_r in Hdata.
      apply Hdata. simpl. lia. }
    destruct (IH (Datatypes.S p) (h ++ [f; bgr2rgb f]) fuel)
      as (ys & h' & Hrun).
    + intros k Hk. replace (Datatypes.S p + k) with (p + Datatypes.S k) by lia.
      rewrite Hdata by (simpl; lia). reflexivity.
    + replace (Datatypes.S p + List.length fs)
        with (p + List.length (f :: fs)) by (simpl; lia).
      exact Hend.
    + simpl in Hfuel. lia.
    + exists (Datatypes.S (List.length h) :: ys), h'.
      cbn [run]. unfold bind at 1.
      rewrite (CameraStreamer_next_frame w s p f h Hf).
      unfold bind, peek, ret.
      rewrite Hrun. cbn [yields frames state finished].
      rewrite deref_converted. simpl.
      now replace (p + Datatypes.S (List.length fs))
        with (Datatypes.S p + List.length fs) by lia.
Qed.

(** X1.  A [CameraStreamer] whose stream is open yields the frames the
    device delivers up to its first failed read, converted and in order,
    then releases the stream and returns; from then on every iteration of
    the object returns at its first turn without a yield, whatever the
    device would deliver. *)
Theorem CameraStreamer_iteration (w : World) (s : CameraStreamer.t)
  (fs : list Frame) (h : Heap) (fuel : nat) :
  dev_released (CameraStreamer.stream s) = false ->
  (forall k, k < List.length fs ->
     camera_data w (dev_index (CameraStreamer.stream s))
                 (dev_pos (CameraStreamer.stream s) + k) = nth_error fs k) ->
  camera_data w (dev_index (CameraStreamer.stream s))
              (dev_pos (CameraStreamer.stream s) + List.length fs) = None ->
  List.length fs < fuel ->
  let r := fst (run (CameraStreamer.next w) fuel (CameraStreamer.iter s) h) in
  frames r = map bgr2rgb fs /\
  finished r = true /\
  dev_released (CameraStreamer.stream (state r)) = true /\
  forall w' h' fuel',
    0 < fuel' ->
    run (CameraStreamer.next w') fuel' (CameraStreamer.iter (state r)) h' =
      (mkRun [] [] (state r) true, h').
Proof.
  intros Hopen Hdata Hend Hfuel. cbv zeta. unfold CameraStreamer.iter.
  destruct (CameraStreamer_run_reads w s fs _ h fuel Hdata Hend Hfuel)
    as (ys & h' & Hrun).
  destruct s as [m c [i p r]]. cbn [CameraStreamer.stream dev_released] in Hopen.
  subst r.
  change (run (CameraStreamer.next w) fuel
            {| CameraStreamer.media_type := m; CameraStreamer.camera_device := c;
               CameraStreamer.stream :=
                 {| dev_index := i; dev_pos := p; dev_released := false |} |} h
          = (mkRun ys (map bgr2rgb fs)
               {| CameraStreamer.media_type := m;
                  CameraStreamer.camera_device := c;
                  CameraStreamer.stream :=
                    {| dev_index := i; dev_pos := p + List.length fs;
                       dev_released := true |} |} true, h')) in Hrun.
  rewrite Hrun. cbn [fst frames finished state].
  repeat apply conj; try reflexivity.
  intros w' h2 fuel' Hfuel'. destruct fuel' as [|fuel']; [lia|].
  cbn [run]. unfold bind.
  now rewrite CameraStreamer_next_released by reflexivity.
Qed.

(** [CameraStreamer_iteration] on camera 0 of [demo], which delivers two
    frames. *)
Lemma CameraStreamer_iteration_witness :
  frames (fst (run (CameraStreamer.next demo) 3
                   (CameraStreamer.iter (on_device 0)) [])) =
    [bgr2rgb frame0; bgr2rgb frame1].
Proof.
  apply (CameraStreamer_iteration demo (on_device 0) [frame0; frame1] [] 3).
  - reflexivity.
  - intros [|[|k]] Hk; [reflexivity|reflexivity|simpl in Hk; lia].
  - reflexivity.
  - simpl. lia.
Defined.

(** ** VideoStreamer.__iter__, streams of any length *)

(** X2.  A [VideoStreamer] constructed without [loop] yields every frame
    of the stream once, converted and in order, and returns; the capture
    then stays at the end of the stream, so every later iteration of the
    object returns at its first turn without a yield. *)
Theorem VideoStreamer_single_pass (w : World) (input_path : string)
  (h0 : Heap) (s : VideoStreamer.t) (h : Heap) (fuel : nat) :
  VideoStreamer.init w input_path false h0 = (Ok s, h) ->
  List.length (cap_frames (VideoStreamer.cap s)) < fuel ->
  let r := fst (run VideoStreamer.next fuel (VideoStreamer.iter s) h) in
  video_data w input_path = Some (cap_frames (VideoStreamer.cap s)) /\
  frames r = map bgr2rgb (cap_frames (VideoStreamer.cap s)) /\
  finished r = true /\
  forall h' fuel',
    0 < fuel' ->
    run VideoStreamer.next fuel' (VideoStreamer.iter (state r)) h' =
      (mkRun [] [] (state r) true, h').
Proof.
  intros Hinit Hfuel. cbv zeta.
  destruct (VideoStreamer_init_ok _ _ _ _ _ _ Hinit) as (F & HF & -> & ->).
  cbn [VideoStreamer.cap cap_frames] in *. unfold VideoStreamer.iter.
  set (s := {| VideoStreamer.loop := false; VideoStreamer.media_type := VIDEO;
               VideoStreamer.cap := {| cap_frames := F; cap_pos := 0 |} |}).
  destruct (VideoStreamer_run_once s F h0 fuel eq_refl Hfuel)
    as (ys & h' & Hrun).
  change (at_pos s F 0) with s in Hrun. rewrite Hrun.
  cbn [fst frames finished state].
  repeat apply conj; try assumption; try reflexivity.
  intros h2 fuel' Hfuel'. destruct fuel' as [|fuel']; [lia|].
  cbn [run]. unfold bind.
  rewrite VideoStreamer_next_end by (apply nth_error_None; lia).
  reflexivity.
Qed.

(** [VideoStreamer_single_pass] on [clip.mp4]. *)
Lemma VideoStreamer_single_pass_witness :
  frames (fst (run VideoStreamer.next 4
    (VideoStreamer.iter
       {| VideoStreamer.loop := false; VideoStreamer.media_type := VIDEO;
          VideoStreamer.cap :=
            {| cap_frames := [frame0; frame1; frame2]; cap_pos := 0 |} |}) []))
    = map bgr2rgb [frame0; frame1; frame2].
Proof.
  apply (VideoStreamer_single_pass demo "clip.mp4" [] _ [] 4 eq_refl).
  simpl. lia.
Defined.

(** X3.  A [VideoStreamer] constructed with [loop] on a stream of [n]
    frames has, after [m] rounds of [n + 1] turns, yielded the stream [m]
    times over, and stands at frame zero again. *)
Theorem VideoStreamer_loop_rounds (w : World) (input_path : string)
  (h0 : Heap) (s : VideoStreamer.t) (h : Heap) (m : nat) :
  VideoStreamer.init w input_path true h0 = (Ok s, h) ->
  let F := cap_frames (VideoStreamer.cap s) in
  let r := fst (run VideoStreamer.next (m * Datatypes.S (List.length F))
                    (VideoStreamer.iter s) h) in
  frames r = List.concat (repeat (map bgr2rgb F) m) /\
  state r = s /\
  finished r = false /\
  List.length (yields r) = m * List.length F.
Proof.
  intros Hinit. cbv zeta.
  destruct (VideoStreamer_init_ok _ _ _ _ _ _ Hinit) as (F & HF & -> & ->).
  cbn [VideoStreamer.cap cap_frames]. unfold VideoStreamer.iter.
  set (s := {| VideoStreamer.loop := true; VideoStreamer.media_type := VIDEO;
               VideoStreamer.cap := {| cap_frames := F; cap_pos := 0 |} |}).
  pose proof (run_length VideoStreamer.next
                (m * Datatypes.S (List.length F)) s h0) as Hlen.
  destruct (VideoStreamer_run_periods s F m h0 eq_refl) as (ys & h' & Hrun).
  change (at_pos s F 0) with s in Hrun. rewrite Hrun in *.
  cbn [fst frames finished state yields] in *.
  repeat apply conj; try reflexivity.
  rewrite <- Hlen. clear. induction m as [|m IH]; [reflexivity|].
  simpl. rewrite length_app, length_map, IH. reflexivity.
Qed.

(** [VideoStreamer_loop_rounds] on [clip.mp4]: two rounds. *)
Lemma VideoStreamer_loop_rounds_witness :
  frames (fst (run VideoStreamer.next 8
    (VideoStreamer.iter
       {| VideoStreamer.loop := true; VideoStreamer.media_type := VIDEO;
          VideoStreamer.cap :=
            {| cap_frames := [frame0; frame1; frame2]; cap_pos := 0 |} |}) []))
    = map bgr2rgb [frame0; frame1; frame2; frame0; frame1; frame2].
Proof.
  apply (VideoStreamer_loop_rounds demo "clip.mp4" [] _ [] 2 eq_refl).
Defined.

(** ** ImageStreamer.__iter__, again and again *)

(** X4.  Iterating an [ImageStreamer] without [loop] changes neither the
    object nor the heap: every new iteration yields the array
    [self.image] once more and returns. *)
Theorem ImageStreamer_iterable_again (s : ImageStreamer.t) (h : Heap)
  (fuel : nat) :
  ImageStreamer.loop s = false ->
  2 <= fuel ->
  let (r, h') := run ImageStreamer.next fuel (ImageStreamer.iter s) h in
  h' = h /\ fst (state r) = s /\ finished r = true /\
  yields r = [ImageStreamer.image s] /\
  yields (fst (run ImageStreamer.next fuel
                   (ImageStreamer.iter (fst (state r))) h')) =
    [ImageStreamer.image s].
Proof.
  intros Hloop Hfuel. replace fuel with (2 + (fuel - 2)) by lia.
  rewrite ImageStreamer_run_once by exact Hloop.
  cbn [state fst]. rewrite ImageStreamer_run_once by exact Hloop.
  now repeat split.
Qed.

(** [ImageStreamer_iterable_again] on the streamer of [pic.png]. *)
Lemma ImageStreamer_iterable_again_witness :
  let s := {| ImageStreamer.loop := false; ImageStreamer.media_type := IMAGE;
              ImageStreamer.image := 1 |} in
  let (r, h') := run ImageStreamer.next 2 (ImageStreamer.iter s)
                     [frame0; bgr2rgb frame0] in
  h' = [frame0; bgr2rgb frame0] /\ fst (state r) = s /\ finished r = true /\
  yields r = [1] /\
  yields (fst (run ImageStreamer.next 2
                   (ImageStreamer.iter (fst (state r))) h')) = [1].
Proof.
  exact (ImageStreamer_iterable_again
           {| ImageStreamer.loop := false; ImageStreamer.media_type := IMAGE;
              ImageStreamer.image := 1 |} [frame0; bgr2rgb frame0] 2
           eq_refl (le_n 2)).
Defined.

(** ** DirStreamer.__iter__, cursor and loop *)

Lemma next_id_bound (s : DirStreamer.t) (i : nat) :
  i < List.length (DirStreamer.names s) ->
  next_id s i <= List.length (DirStreamer.names s) /\
  (DirStreamer.loop s = true -> next_id s i < List.length (DirStreamer.names s)).
Proof.
  intros Hi. unfold next_id.
  destruct (i <? List.length (DirStreamer.names s) - 1) eqn:E.
  - apply Nat.ltb_lt in E. lia.
  - destruct (DirStreamer.loop s); simpl; split; intros; try lia; discriminate.
Qed.

(** Iteration moves the cursor and nothing else. *)
Lemma DirStreamer_run_state w s fuel : forall i h,
  i <= List.length (DirStreamer.names s) ->
  exists j,
    j <= List.length (DirStreamer.names s) /\
    state (fst (run (DirStreamer.next w) fuel (at_id s i) h)) = at_id s j.
Proof.
  induction fuel as [|fuel IH]; intros i h Hi.
  - exists i. now split.
  - destruct (Nat.lt_ge_cases i (List.length (DirStreamer.names s))) as [Hlt|Hge].
    + rewrite DirStreamer_run_step by exact Hlt.
      destruct (next_id_bound s i Hlt) as [Hle _].
      destruct (imread_data w _) as [img|].
      * destruct (IH (next_id s i) (h ++ [img; bgr2rgb img]) Hle)
          as (j & Hj & Hst).
        exists j. split; [exact Hj|].
        destruct (run (DirStreamer.next w) fuel _ _) as [r h']. exact Hst.
      * apply IH. exact Hle.
    + rewrite DirStreamer_run_done by exact Hge. exists i. now split.
Qed.

(** X5.  Iterating a [DirStreamer] changes only its cursor: the list of
    names, the directory and the [loop] flag stay as they are, and the
    cursor, once within the list, never goes beyond its end. *)
Theorem DirStreamer_cursor_invariant (w : World) (s : DirStreamer.t)
  (h : Heap) (fuel : nat) :
  DirStreamer.file_id s <= List.length (DirStreamer.names s) ->
  let r := fst (run (DirStreamer.next w) fuel (DirStreamer.iter s) h) in
  DirStreamer.names (state r) = DirStreamer.names s /\
  DirStreamer.dir (state r) = DirStreamer.dir s /\
  DirStreamer.loop (state r) = DirStreamer.loop s /\
  DirStreamer.file_id (state r) <= List.length (DirStreamer.names s).
Proof.
  intros Hid. cbv zeta. unfold DirStreamer.iter.
  destruct (DirStreamer_run_state w s fuel _ h Hid) as (j & Hj & Hst).
  rewrite <- (DirStreamer_at_id s) in Hst. rewrite Hst.
  now repeat split.
Qed.

(** [DirStreamer_cursor_invariant] on [shots], five turns with [loop]. *)
Lemma DirStreamer_cursor_invariant_witness :
  DirStreamer.file_id
    (state (fst (run (DirStreamer.next demo) 5
       (DirStreamer.iter
          {| DirStreamer.loop := true; DirStreamer.media_type := DIR;
             DirStreamer.dir := "shots";
             DirStreamer.names := ["a.png"; "b.png"];
             DirStreamer.file_id := 0 |}) []))) <= 2.
Proof.
  apply (DirStreamer_cursor_invariant demo
           {| DirStreamer.loop := true; DirStreamer.media_type := DIR;
              DirStreamer.dir := "shots";
              DirStreamer.names := ["a.png"; "b.png"];
              DirStreamer.file_id := 0 |} [] 5).
  simpl. lia.
Defined.

Lemma DirStreamer_never_returns w s fuel : forall i h,
  DirStreamer.loop s = true ->
  i < List.length (DirStreamer.names s) ->
  finished (fst (run (DirStreamer.next w) fuel (at_id s i) h)) = false.
Proof.
  induction fuel as [|fuel IH]; intros i h Hloop Hi; [reflexivity|].
  rewrite DirStreamer_run_step by exact Hi.
  destruct (next_id_bound s i Hi) as [_ Hlt]. specialize (Hlt Hloop).
  destruct (imread_data w _) as [img|].
  - specialize (IH (next_id s i) (h ++ [img; bgr2rgb img]) Hloop Hlt).
    destruct (run (DirStreamer.next w) fuel _ _) as [r h']. exact IH.
  - now apply IH.
Qed.

Lemma DirStreamer_run_rounds w s n m : forall h,
  DirStreamer.loop s = true ->
  List.length (DirStreamer.names s) = Datatypes.S n ->
  exists ys h',
    run (DirStreamer.next w) (m * Datatypes.S n) (at_id s 0) h =
      (mkRun ys
         (List.concat (repeat (entry_frames w (DirStreamer.dir s)
                                            (DirStreamer.names s)) m))
         (at_id s 0) false, h').
Proof.
  intros h Hloop Hlen. revert h. induction m as [|m IH]; intros h.
  - exists [], h. reflexivity.
  - destruct (DirStreamer_run_pass w s n 0 h) as (ys1 & h1 & Hpass); [lia|].
    rewrite Hloop in Hpass.
    destruct (IH h1) as (ys2 & h2 & Hrest).
    exists (ys1 ++ ys2), h2.
    replace (Datatypes.S m * Datatypes.S n)
      with (Datatypes.S n + m * Datatypes.S n) by lia.
    rewrite run_app, Hpass. cbn [finished state]. rewrite Hrest.
    reflexivity.
Qed.

(** X6.  A [DirStreamer] constructed with [loop] never returns, whatever
    becomes of the directory; and as long as the files stay as they are,
    [m] rounds over the list deliver [m] times the entries that decode,
    in the order of the list, the cursor being back on the first entry
    after each round. *)
Theorem DirStreamer_loop_rounds (w : World) (input_path : string)
  (h0 : Heap) (s : DirStreamer.t) (h : Heap) :
  DirStreamer.init w input_path true h0 = (Ok s, h) ->
  (forall w' fuel h1,
     finished (fst (run (DirStreamer.next w') fuel (DirStreamer.iter s) h1))
       = false) /\
  (forall w' m h1,
     let r := fst (run (DirStreamer.next w')
                       (m * List.length (DirStreamer.names s))
                       (DirStreamer.iter s) h1) in
     frames r = List.concat (repeat (entry_frames w' input_path
                                                  (DirStreamer.names s)) m) /\
     state r = s).
Proof.
  intros Hinit. destruct (DirStreamer_init_ok _ _ _ _ _ _ Hinit) as [Hs Hne].
  clear Hinit. subst s.
  set (s := {| DirStreamer.loop := true; DirStreamer.media_type := DIR;
               DirStreamer.dir := input_path;
               DirStreamer.names := sorted (listdir w input_path);
               DirStreamer.file_id := 0 |}) in *.
  change (sorted (listdir w input_path)) with (DirStreamer.names s) in Hne.
  change (DirStreamer.iter s) with (at_id s 0).
  destruct (List.length (DirStreamer.names s)) as [|n] eqn:Hlen.
  { now destruct (DirStreamer.names s). }
  split.
  - intros w' fuel h1. apply DirStreamer_never_returns; [reflexivity|lia].
  - intros w' m h1. cbv zeta.
    destruct (DirStreamer_run_rounds w' s n m h1 eq_refl Hlen)
      as (ys & h' & Hrun).
    rewrite Hrun. now split.
Qed.

(** [DirStreamer_loop_rounds] on [shots]: two rounds. *)
Lemma DirStreamer_loop_rounds_witness :
  frames (fst (run (DirStreamer.next demo) 4
    (DirStreamer.iter
       {| DirStreamer.loop := true; DirStreamer.media_type := DIR;
          DirStreamer.dir := "shots"; DirStreamer.names := ["a.png"; "b.png"];
          DirStreamer.file_id := 0 |}) [frame1])) =
    map bgr2rgb [frame1; frame2; frame1; frame2].
Proof.
  destruct (DirStreamer_loop_rounds demo "shots" [] _ [frame1] eq_refl)
    as [_ Hrounds].
  apply (Hrounds demo 2 [frame1]).
Defined.

Lemma any_readable_inv w dir names h :
  fst (DirStreamer.any_readable w dir names h) = true ->
  exists name, In name names /\ imread_data w (path_join dir name) <> None.
Proof.
  induction names as [|name rest IH]; simpl; [discriminate|].
  unfold bind, cv2_imread.
  destruct (imread_data w (path_join dir name)) as [img|] eqn:E.
  - intros _. exists name. split; [now left|congruence].
  - unfold ret. intros Hrest. destruct (IH Hrest) as (n & Hin & Hn).
    exists n. split; [now right|exact Hn].
Qed.

Lemma entry_frames_nonempty w dir names :
  (exists name, In name names /\ imread_data w (path_join dir name) <> None) ->
  entry_frames w dir names <> [].
Proof.
  intros (name & Hin & Hn) Hempty.
  destruct (imread_data w (path_join dir name)) as [img|] eqn:E; [|congruence].
  assert (Hframe : In (bgr2rgb img) (entry_frames w dir names)).
  { unfold entry_frames. apply in_flat_map. exists name.
    split; [exact Hin|]. rewrite E. now left. }
  rewrite Hempty in Hframe. destruct Hframe.
Qed.

(** X7.  A [DirStreamer] is only constructed when some entry decodes, so
    a first pass over the directory as it was at construction yields at
    least one frame, with or without [loop]. *)
Theorem DirStreamer_first_pass_yields (w : World) (input_path : string)
  (loop : bool) (h0 : Heap) (s : DirStreamer.t) (h : Heap) (h1 : Heap) :
  DirStreamer.init w input_path loop h0 = (Ok s, h) ->
  frames (fst (run (DirStreamer.next w) (List.length (DirStreamer.names s))
                   (DirStreamer.iter s) h1)) <> [].
Proof.
  intros Hinit.
  destruct (DirStreamer_init_ok _ _ _ _ _ _ Hinit) as [Hs Hne].
  assert (Hreadable : exists name,
            In name (sorted (listdir w input_path)) /\
            imread_data w (path_join input_path name) <> None).
  { revert Hinit. unfold DirStreamer.init.
    destruct (isdir w input_path); simpl; [|discriminate].
    destruct (sorted (listdir w input_path)) as [|n0 rest]; [discriminate|].
    unfold bind.
    pose proof (any_readable_inv w input_path (n0 :: rest) h0) as Hinv.
    destruct (DirStreamer.any_readable w input_path (n0 :: rest) h0)
      as [[|] h2]; [|discriminate].
    intros _. now apply Hinv. }
  clear Hinit. subst s.
  remember {| DirStreamer.loop := loop; DirStreamer.media_type := DIR;
              DirStreamer.dir := input_path;
              DirStreamer.names := sorted (listdir w input_path);
              DirStreamer.file_id := 0 |} as d eqn:Hd.
  assert (Hn : DirStreamer.names d = sorted (listdir w input_path))
    by now rewrite Hd.
  assert (Hdir : DirStreamer.dir d = input_path) by now rewrite Hd.
  assert (Hit : DirStreamer.iter d = at_id d 0) by now rewrite Hd.
  rewrite <- Hn in Hne, Hreadable. rewrite Hit. clear Hd Hn Hit.
  destruct (List.length (DirStreamer.names d)) as [|n] eqn:Hlen.
  { now destruct (DirStreamer.names d). }
  destruct (DirStreamer_run_pass w d n 0 h1) as (ys & h' & Hrun); [lia|].
  rewrite Hrun, Hdir. cbn [fst frames skipn].
  now apply entry_frames_nonempty.
Qed.

(** [DirStreamer_first_pass_yields] on [shots]. *)
Lemma DirStreamer_first_pass_yields_witness :
  frames (fst (run (DirStreamer.next demo) 2
    (DirStreamer.iter
       {| DirStreamer.loop := false; DirStreamer.media_type := DIR;
          DirStreamer.dir := "shots"; DirStreamer.names := ["a.png"; "b.png"];
          DirStreamer.file_id := 0 |}) [])) <> [].
Proof.
  exact (DirStreamer_first_pass_yields demo "shots" false [] _ [frame1] []
           eq_refl).
Defined.

Lemma DirStreamer_run_silent w s fuel : forall i h,
  (forall name, In name (DirStreamer.names s) ->
     imread_data w (path_join (DirStreamer.dir s) name) = None) ->
  run (DirStreamer.next w) fuel (at_id s i) h =
    (mkRun [] [] (state (fst (run (DirStreamer.next w) fuel (at_id s i) h)))
           (finished (fst (run (DirStreamer.next w) fuel (at_id s i) h))), h).
Proof.
  induction fuel as [|fuel IH]; intros i h Hnone; [reflexivity|].
  destruct (Nat.lt_ge_cases i (List.length (DirStreamer.names s))) as [Hlt|Hge].
  - rewrite DirStreamer_run_step by exact Hlt.
    rewrite Hnone by (apply nth_In; exact Hlt).
    now apply IH.
  - now rewrite DirStreamer_run_done by exact Hge.
Qed.

(** X8.  When none of the listed entries decodes any more (the files were
    removed or replaced after construction), iteration skips them all: it
    yields nothing and allocates nothing, and with [loop] it goes round
    the list for ever without yielding or returning. *)
Theorem DirStreamer_skips_unreadable (w : World) (s : DirStreamer.t)
  (h : Heap) (fuel : nat) :
  (forall name, In name (DirStreamer.names s) ->
     imread_data w (path_join (DirStreamer.dir s) name) = None) ->
  let (r, h') := run (DirStreamer.next w) fuel (DirStreamer.iter s) h in
  yields r = [] /\ frames r = [] /\ h' = h /\
  (DirStreamer.loop s = true ->
   DirStreamer.file_id s < List.length (DirStreamer.names s) ->
   finished r = false).
Proof.
  intros Hnone. unfold DirStreamer.iter.
  pose proof (DirStreamer_run_silent w s fuel (DirStreamer.file_id s) h Hnone)
    as Hrun.
  pose proof (fun Hl => DirStreamer_never_returns w s fuel
                          (DirStreamer.file_id s) h Hl) as Hnever.
  rewrite <- (DirStreamer_at_id s) in Hrun, Hnever.
  destruct (run (DirStreamer.next w) fuel s h) as [r h'].
  cbn [fst] in *. injection Hrun as -> ->.
  cbn [yields frames]. repeat split. intros Hl Hi. now apply Hnever.
Qed.

(** [DirStreamer_skips_unreadable] on [junk], whose one entry does not
    decode. *)
Lemma DirStreamer_skips_unreadable_witness :
  yields (fst (run (DirStreamer.next demo) 7
    (DirStreamer.iter
       {| DirStreamer.loop := true; DirStreamer.media_type := DIR;
          DirStreamer.dir := "junk"; DirStreamer.names := ["x.bin"];
          DirStreamer.file_id := 0 |}) [])) = [].
Proof.
  pose proof (DirStreamer_skips_unreadable demo
    {| DirStreamer.loop := true; DirStreamer.media_type := DIR;
       DirStreamer.dir := "junk"; DirStreamer.names := ["x.bin"];
       DirStreamer.file_id := 0 |} [] 7) as H.
  destruct (run (DirStreamer.next demo) 7 _ []) as [r h'].
  apply H. intros name [<-|[]]. reflexivity.
Defined.

(** ** ThreadedStreamer: the queue, the end, the arrays *)

Section ThreadedMore.

Context {S : Type} (inner_next : S -> M (Step S)).
Context (hangs : S -> Heap -> bool) (buffer_size : nat).
Context (s0 : S) (h0 : Heap).

Local Abbreviation step' := (step S inner_next hangs buffer_size).
Local Abbreviation steps' := (steps S inner_next hangs buffer_size).

(** A property kept by every step holds all along an execution. *)
Lemma steps_ind_from (P : Sys S -> Prop) (st0 st : Sys S) :
  P st0 ->
  (forall st1 st2, P st1 -> step' st1 st2 -> P st2) ->
  steps' st0 st -> P st.
Proof.
  intros H0 Hstep Hsteps. induction Hsteps as [|st1 st2 st3 _ IH Hs].
  - exact H0.
  - eapply Hstep; [apply IH; exact H0|exact Hs].
Qed.

(** X9.  The queue of a [ThreadedStreamer] with a positive [buffer_size]
    never holds more frames than that: the child waits in [put] instead. *)
Theorem ThreadedStreamer_queue_bounded (st : Sys S) :
  0 < buffer_size ->
  steps' (start s0 h0) st ->
  List.length (buffer st) <= buffer_size.
Proof.
  intros Hpos.
  apply (steps_ind_from (fun st => List.length (buffer st) <= buffer_size)).
  - simpl. lia.
  - intros st1 st2 Hle Hstep.
    destruct Hstep; cbn [buffer] in *; try lia; try (simpl in Hle; lia).
    rewrite length_app. simpl.
    unfold full in H. apply Bool.andb_false_iff in H as [H|H].
    + apply Nat.ltb_ge in H. lia.
    + apply Nat.leb_gt in H. lia.
Qed.

(** X10.  A [ThreadedStreamer] cannot get stuck: as long as the parent's
    generator has neither returned nor been closed, some step is possible,
    and the parent itself can always take one. *)
Theorem ThreadedStreamer_progress (st : Sys S) :
  consumer st <> Exhausted ->
  consumer st <> Closed ->
  exists st', step' st st' /\ process st' = process st.
Proof.
  intros Hexh Hclosed. destruct st as [p q c m out]. cbn [consumer] in *.
  destruct c; try congruence.
  - destruct (is_alive p) eqn:Halive.
    + eexists. split; [apply c_enter; now left|reflexivity].
    + destruct q as [|x q].
      * eexists. split; [apply c_exit; exact Halive|reflexivity].
      * eexists. split; [apply c_enter; now right|reflexivity].
  - destruct q as [|x q].
    + eexists. split; [apply c_timeout|reflexivity].
    + eexists. split; [apply c_get|reflexivity].
  - eexists. split; [apply c_resume|reflexivity].
Qed.

Lemma ended_process_dead (st : Sys S) :
  steps' (start s0 h0) st ->
  consumer st = Exhausted \/ consumer st = Closed ->
  is_alive (process st) = false.
Proof.
  apply (steps_ind_from
           (fun st => consumer st = Exhausted \/ consumer st = Closed ->
                      is_alive (process st) = false)).
  - simpl. intros [H|H]; discriminate.
  - intros st1 st2 IH Hstep.
    destruct Hstep; cbn [consumer process] in *;
      try (intros Hc; specialize (IH Hc); discriminate IH);
      try (intros [Hc|Hc]; discriminate Hc).
    + intros _. assumption.
    + intros _. now destruct p.
Qed.

(** X11.  Once the parent's generator has returned or has been closed,
    the child process is no longer alive and the execution is over: no
    step is left, so no further frame is delivered. *)
Theorem ThreadedStreamer_ends (st : Sys S) :
  steps' (start s0 h0) st ->
  consumer st = Exhausted \/ consumer st = Closed ->
  is_alive (process st) = false /\
  forall st', steps' st st' -> st' = st.
Proof.
  intros Hsteps Hc.
  pose proof (ended_process_dead st Hsteps Hc) as Hdead.
  split; [exact Hdead|].
  intros st' Hrest. induction Hrest as [|st1 st2 st3 _ IH Hstep]; [reflexivity|].
  specialize (IH Hsteps Hc Hdead). subst st2.
  exfalso. destruct Hstep; cbn [consumer process] in *;
    try discriminate Hdead; destruct Hc as [Hc|Hc]; discriminate Hc.
Qed.

(** X12.  Every frame a [ThreadedStreamer] yields is an array newly
    allocated in the parent: no two yields are the same array and none is
    an array the parent had before, whatever streamer is wrapped. *)
Theorem ThreadedStreamer_fresh_arrays (st : Sys S) :
  steps' (start s0 h0) st ->
  NoDup (received st) /\
  Forall (fun r => List.length h0 <= r < List.length (memory st))
         (received st).
Proof.
  intros Hsteps.
  assert (Hseq : received st = seq (List.length h0) (List.length (received st))
                 /\ List.length (memory st) =
                    List.length h0 + List.length (received st)).
  { revert Hsteps.
    apply (steps_ind_from
             (fun st => received st =
                          seq (List.length h0) (List.length (received st))
                        /\ List.length (memory st) =
                           List.length h0 + List.length (received st))).
    - simpl. split; [reflexivity|lia].
    - intros st1 st2 [Hrec Hmem] Hstep.
      destruct Hstep; cbn [received memory] in *; try (now split).
      rewrite !length_app. simpl. split; [|lia].
      rewrite Nat.add_1_r, seq_S, <- Hrec. now rewrite Hmem. }
  destruct Hseq as [Hrec Hmem]. split.
  - rewrite Hrec. apply seq_NoDup.
  - rewrite Hrec at 1. apply Forall_forall. intros r Hr.
    apply in_seq in Hr. lia.
Qed.

End ThreadedMore.

Lemma demo_suspended_reached :
  steps VideoStreamer.gen VideoStreamer.next never_hangs 1
        (start demo_video []) demo_suspended.
Proof.
  eapply steps_snoc; [eapply steps_snoc; [eapply steps_snoc;
    [eapply steps_snoc; [apply steps_refl|]|]|]|].
  - apply p_yield; reflexivity.
  - apply p_put. reflexivity.
  - apply c_enter. now left.
  - apply (c_get VideoStreamer.gen VideoStreamer.next never_hangs 1 _
                 (bgr2rgb frame0) [] [] []).
Qed.

Lemma demo_closed_reached :
  steps VideoStreamer.gen VideoStreamer.next never_hangs 1
        (start demo_video []) demo_closed.
Proof.
  eapply steps_snoc; [apply demo_suspended_reached|].
  apply (c_close VideoStreamer.gen VideoStreamer.next never_hangs 1
                 (Iterating _ _)).
Qed.

Lemma demo_queue_full_reached :
  steps ImageStreamer.gen ImageStreamer.next never_hangs 1
        (start (ImageStreamer.iter demo_image) demo_image_heap)
        demo_queue_full.
Proof.
  eapply steps_snoc; [eapply steps_snoc; [eapply steps_snoc;
    [apply steps_refl|]|]|].
  - apply p_yield; reflexivity.
  - apply p_put. reflexivity.
  - apply p_yield; reflexivity.
Qed.

Lemma demo_two_received_reached :
  steps ImageStreamer.gen ImageStreamer.next never_hangs 2
        (start (ImageStreamer.iter demo_image) demo_image_heap)
        demo_two_received.
Proof.
  eapply steps_snoc; [eapply steps_snoc; [eapply steps_snoc;
    [eapply steps_snoc; [eapply steps_snoc; [eapply steps_snoc;
    [eapply steps_snoc; [eapply steps_snoc; [eapply steps_snoc;
    [apply steps_refl|]|]|]|]|]|]|]|]|].
  - apply p_yield; reflexivity.
  - apply p_put. reflexivity.
  - apply p_yield; reflexivity.
  - apply p_put. reflexivity.
  - apply c_enter. now left.
  - apply c_get.
  - apply c_resume.
  - apply c_enter. now left.
  - apply (c_get ImageStreamer.gen ImageStreamer.next never_hangs 2 _
                 (bgr2rgb frame0) [] (demo_image_heap ++ [bgr2rgb frame0]) [2]).
Qed.

(** [ThreadedStreamer_queue_bounded] at the moment [demo_queue_full],
    around the [ImageStreamer] of [pic.png] with [loop]: the queue of one
    is full and the child waits in [put] with the second frame, which it
    cannot put. *)
Lemma ThreadedStreamer_queue_bounded_witness :
  buffer demo_queue_full = [bgr2rgb frame0] /\
  full 1 (buffer demo_queue_full) = true /\
  (forall st,
     ~ step ImageStreamer.gen ImageStreamer.next never_hangs 1
            demo_queue_full
            (mkSys (process st) (buffer demo_queue_full ++ [bgr2rgb frame0])
                   (consumer st) (memory st) (received st))) /\
  List.length (buffer demo_queue_full) <= 1.
Proof.
  split; [reflexivity|]. split; [reflexivity|]. split.
  - intros st Hstep. inversion Hstep; subst; discriminate.
  - apply (ThreadedStreamer_queue_bounded ImageStreamer.next never_hangs 1
             (ImageStreamer.iter demo_image) demo_image_heap demo_queue_full);
      [lia|apply demo_queue_full_reached].
Defined.

(** [ThreadedStreamer_progress] at the moment [demo_suspended]. *)
Lemma ThreadedStreamer_progress_witness :
  exists st',
    step VideoStreamer.gen VideoStreamer.next never_hangs 1 demo_suspended st' /\
    process st' = process demo_suspended.
Proof.
  apply (ThreadedStreamer_progress VideoStreamer.next never_hangs 1
           demo_suspended); discriminate.
Defined.

(** [ThreadedStreamer_ends] at the moment [demo_closed]. *)
Lemma ThreadedStreamer_ends_witness :
  is_alive (process demo_closed) = false /\
  forall st', steps VideoStreamer.gen VideoStreamer.next never_hangs 1
                    demo_closed st' ->
              st' = demo_closed.
Proof.
  apply (ThreadedStreamer_ends VideoStreamer.next never_hangs 1 demo_video []
           demo_closed); [apply demo_closed_reached|now right].
Defined.

(** [ThreadedStreamer_fresh_arrays] at the moment [demo_two_received]:
    around an [ImageStreamer], which yields one and the same array 1, the
    caller has been given the two different arrays 2 and 3, neither of
    them one of the two arrays the parent had. *)
Lemma ThreadedStreamer_fresh_arrays_witness :
  received demo_two_received = [2; 3] /\
  List.length demo_image_heap = 2 /\
  yields (fst (run ImageStreamer.next 2 (ImageStreamer.iter demo_image)
                   demo_image_heap)) = [1; 1] /\
  NoDup (received demo_two_received) /\
  Forall (fun r => List.length demo_image_heap <= r
                   < List.length (memory demo_two_received))
         (received demo_two_received).
Proof.
  split; [reflexivity|]. split; [reflexivity|]. split; [reflexivity|].
  apply (ThreadedStreamer_fresh_arrays ImageStreamer.next never_hangs 2
           (ImageStreamer.iter demo_image) demo_image_heap demo_two_received).
  apply demo_two_received_reached.
Defined.

(** ** get_streamer: how a call can end *)



Lemma get_type_wrap (threaded : bool) (streamer : BaseStreamer) :
  get_type (wrap threaded streamer) = get_type streamer.
Proof. now destruct threaded. Qed.

Section Endings.

Context {L : Type} (w : World) (cls : Classes L).


(** X14.  A locator that the three readers refuse and that [int] reads
    as an index the capture takes gets a [CameraStreamer] on that device
    index, wrapped when [threaded], in the heap the readers left; the
    device is not asked whether it exists. *)
Theorem get_streamer_camera_index (input_path : L) (loop threaded : bool)
  (h : Heap) (index : Z) (e1 e2 e3 : StreamerError) (h1 h2 h3 : Heap) :
  ImageStreamer_new cls input_path loop h = (Refused e1, h1) ->
  DirStreamer_new cls input_path loop h1 = (Refused e2, h2) ->
  VideoStreamer_new cls input_path loop h2 = (Refused e3, h3) ->
  int_of cls input_path = inr index ->
  index_rejected w index = false ->
  get_streamer w cls input_path loop threaded h =
    (Returned (wrap threaded (Camera (on_device index))), "", h3).
Proof.
  intros Hi Hd Hv Hp Hr. rewrite get_streamer_cases.
  now rewrite Hi, Hd, Hv, Hp, Hr.
Qed.

(** X15.  The [threaded] option changes nothing but the wrapping: the
    call with [threaded] ends as the call without it, in the same heap,
    the returned streamer being wrapped in a [ThreadedStreamer] with a
    queue of two. *)
Theorem get_streamer_threaded (input_path : L) (loop : bool) (h : Heap) :
  get_streamer w cls input_path loop true h =
    let '(outcome, written, h') := get_streamer w cls input_path loop false h in
    (in_thread outcome, written, h').
Proof.
  rewrite !get_streamer_cases.
  destruct (ImageStreamer_new cls input_path loop h) as [[s|e1|e] h1];
    try reflexivity.
  destruct (DirStreamer_new cls input_path loop h1) as [[s|e2|e] h2];
    try reflexivity.
  destruct (VideoStreamer_new cls input_path loop h2) as [[s|e3|e] h3];
    try reflexivity.
  destruct (int_of cls input_path) as [e|index]; [reflexivity|].
  destruct (index_rejected w index); reflexivity.
Qed.

End Endings.

(** [get_streamer_camera_index] in [demo], where no camera 7 exists: on
    the [str] locators [0] and [ 7 ], and on the [int] 7. *)
Lemma get_streamer_camera_index_witness :
  get_streamer demo (on_str demo) "0" false false [] =
    (Returned (Camera (on_device 0)), "", []) /\
  get_streamer demo (on_str demo) " 7 " false true [] =
    (Returned (Threaded (Camera (on_device 7)) 2), "", []) /\
  get_streamer demo demo_classes (Int 7) false false [] =
    (Returned (Camera (on_device 7)), "", []).
Proof.
  split; [|split].
  - exact (get_streamer_camera_index demo (on_str demo) "0" false false [] 0
             _ _ _ [] [] [] eq_refl eq_refl eq_refl eq_refl eq_refl).
  - exact (get_streamer_camera_index demo (on_str demo) " 7 " false true [] 7
             _ _ _ [] [] [] eq_refl eq_refl eq_refl eq_refl eq_refl).
  - exact (get_streamer_camera_index demo demo_classes (Int 7) false false [] 7
             _ _ _ [] [] [] eq_refl eq_refl eq_refl eq_refl eq_refl).
Defined.

(** X16.  [get_type] of the streamer [get_streamer] returns is, also
    through the [ThreadedStreamer] when there is one, that of the
    streamer the first reader to accept the locator constructed, and
    [CAMERA] when the three readers refused it.  On a [str] with the
    classes of the module that is [IMAGE] when the locator is a decodable
    image, else [DIR] when it is a directory with a decodable entry, else
    [VIDEO] when the capture opens it, else [CAMERA]. *)
Theorem get_streamer_type (w : World) :
  (forall (L : Type) (cls : Classes L) (input_path : L)
          (loop threaded : bool) (h : Heap) (streamer : BaseStreamer),
     fst (fst (get_streamer w cls input_path loop threaded h)) =
       Returned streamer ->
     let image := ImageStreamer_new cls input_path loop h in
     let dir := DirStreamer_new cls input_path loop (snd image) in
     let video := VideoStreamer_new cls input_path loop (snd dir) in
     get_type streamer =
       match fst image with
       | Constructed s => get_type s
       | _ =>
           match fst dir with
           | Constructed s => get_type s
           | _ =>
               match fst video with
               | Constructed s => get_type s
               | _ => CAMERA
               end
           end
       end) /\
  (forall (input_path : string) (loop threaded : bool) (h : Heap)
          (streamer : BaseStreamer),
     fst (fst (get_streamer w (on_str w) input_path loop threaded h)) =
       Returned streamer ->
     get_type streamer =
       if succeeded (fst (ImageStreamer.init w input_path loop h)) then IMAGE
       else if succeeded (fst (DirStreamer.init w input_path loop h)) then DIR
       else if succeeded (fst (VideoStreamer.init w input_path loop h))
            then VIDEO
       else CAMERA).
Proof.
  split.
  - intros L cls input_path loop threaded h streamer.
    cbv zeta. rewrite get_streamer_cases.
    destruct (ImageStreamer_new cls input_path loop h) as [[s|e1|e] h1];
      cbn [fst snd]; try discriminate.
    { intros [= <-]. now rewrite get_type_wrap. }
    destruct (DirStreamer_new cls input_path loop h1) as [[s|e2|e] h2];
      cbn [fst snd]; try discriminate.
    { intros [= <-]. now rewrite get_type_wrap. }
    destruct (VideoStreamer_new cls input_path loop h2) as [[s|e3|e] h3];
      cbn [fst snd]; try discriminate.
    { intros [= <-]. now rewrite get_type_wrap. }
    destruct (int_of cls input_path) as [e|index]; [discriminate|].
    destruct (index_rejected w index); [discriminate|].
    intros [= <-]. now rewrite get_type_wrap.
  - intros input_path loop threaded h streamer.
    rewrite get_streamer_str_cases.
    destruct (ImageStreamer.init w input_path loop h) as [[s|e1] h1].
    { intros [= <-]. now rewrite get_type_wrap. }
    destruct (DirStreamer.init w input_path loop h) as [[s|e2] h2].
    { intros [= <-]. now rewrite get_type_wrap. }
    destruct (VideoStreamer.init w input_path loop h) as [[s|e3] h3].
    { intros [= <-]. now rewrite get_type_wrap. }
    destruct (int_str w input_path) as [index|]; [|discriminate].
    destruct (index_rejected w index); [discriminate|].
    intros [= <-]. now rewrite get_type_wrap.
Qed.

(** [get_streamer_type] in [demo]: the directory [shots], asked for with
    [threaded], and the [int] 0, which [VideoStreamer] opens. *)
Lemma get_streamer_type_witness :
  get_type
    (Threaded (Dir {| DirStreamer.loop := false; DirStreamer.media_type := DIR;
                      DirStreamer.dir := "shots";
                      DirStreamer.names := ["a.png"; "b.png"];
                      DirStreamer.file_id := 0 |}) 2) = DIR /\
  get_type (Threaded (Video (demo_camera_video true)) 2) = VIDEO.
Proof.
  split.
  - exact (proj2 (get_streamer_type demo) "shots" false true [] _ eq_refl).
  - exact (proj1 (get_streamer_type demo) Locator demo_classes (Int 0)
                 true true [] _ eq_refl).
Defined.

(** X17.  When the three readers raise, the loop of [get_streamer] has
    collected one message for each, without allocating; the message of
    [VideoStreamer] is the last of the [InvalidInput] messages, and there
    is an [OpenError] message exactly when the locator is a file or a
    directory. *)
Theorem try_readers_collects (w : World) (input_path : string)
  (loop threaded : bool) (h : Heap) (errors : Errors) (h' : Heap) :
  try_readers (readers (on_str w)) input_path loop threaded
              {| invalid_input := []; open_error := [] |} h =
    (Failed errors, h') ->
  h' = h /\
  List.length (invalid_input errors) + List.length (open_error errors) = 3 /\
  last (invalid_input errors) "" =
    ("Can't open the video from " ++ input_path)%string /\
  (open_error errors <> [] <->
   isfile w input_path = true \/ isdir w input_path = true).
Proof.
  rewrite try_readers_unrolled.
  cbn [on_str ImageStreamer_new DirStreamer_new VideoStreamer_new].
  unfold as_reader, bind, ret.
  destruct (ImageStreamer.init w input_path loop h) as [[s|e1] h1] eqn:Ei;
    [discriminate|].
  pose proof (ImageStreamer_init_raise _ _ _ _ _ _ Ei). subst h1.
  destruct (DirStreamer.init w input_path loop h) as [[s|e2] h2] eqn:Ed;
    [discriminate|].
  pose proof (DirStreamer_init_raise _ _ _ _ _ _ Ed). subst h2.
  destruct (VideoStreamer.init w input_path loop h) as [[s|e3] h3] eqn:Ev;
    [discriminate|].
  pose proof (VideoStreamer_init_heap _ _ _ _ _ _ Ev). subst h3.
  intros [= <- <-]. split; [reflexivity|].
  assert (He3 : e3 = InvalidInput ("Can't open the video from " ++ input_path)).
  { revert Ev. unfold VideoStreamer.init.
    destruct (video_data w input_path); unfold ret; congruence. }
  assert (He1 : (isfile w input_path = false /\ exists m, e1 = InvalidInput m) \/
                (isfile w input_path = true /\ exists m, e1 = OpenError m)).
  { revert Ei. rewrite ImageStreamer_init_cases.
    destruct (isfile w input_path).
    - destruct (imread_data w input_path); [discriminate|].
      intros [= <-]. right. eauto.
    - intros [= <-]. left. eauto. }
  assert (He2 : (isdir w input_path = false /\ exists m, e2 = InvalidInput m) \/
                (isdir w input_path = true /\ exists m, e2 = OpenError m)).
  { revert Ed. unfold DirStreamer.init.
    destruct (isdir w input_path); simpl.
    - destruct (sorted (listdir w input_path)) as [|n0 rest].
      + unfold ret. intros [= <-]. right. eauto.
      + unfold bind.
        destruct (DirStreamer.any_readable w input_path (n0 :: rest) h)
          as [[|] h2]; unfold ret; [discriminate|].
        intros [= <-]. right. eauto.
    - unfold ret. intros [= <-]. left. eauto. }
  subst e3.
  destruct He1 as [[Hf [m1 ->]]|[Hf [m1 ->]]];
    destruct He2 as [[Hd [m2 ->]]|[Hd [m2 ->]]];
    rewrite Hf, Hd; cbn [record_error invalid_input open_error app List.length last];
    (split; [reflexivity|]); (split; [reflexivity|]);
    split; intros H; try congruence; try discriminate;
      try (now left); try (now right); destruct H; discriminate.
Qed.

(** [try_readers_collects] on [notes.txt] of [demo], a file that is not
    an image. *)
Lemma try_readers_collects_witness :
  open_error
    {| invalid_input := ["Can't find the dir by notes.txt";
                         "Can't open the video from notes.txt"];
       open_error := ["Can't open the image from notes.txt"] |} <> [] <->
  isfile demo "notes.txt" = true \/ isdir demo "notes.txt" = true.
Proof.
  apply (try_readers_collects demo "notes.txt" false false [] _ [] eq_refl).
Defined.

(** ** The tests of the face detection models: paths *)

Lemma slash_or_not {A} (o : option ascii) (x y : A) :
  match o with Some "/"%char => x | _ => y end =
  if match o with Some c => Ascii.eqb c "/" | None => false end then x else y.
Proof.
  destruct o as [c|]; [|reflexivity].
  destruct c as [[] [] [] [] [] [] [] []]; reflexivity.
Qed.

(** [os.path.join] by its three tests. *)
Lemma path_join_spec (a b : string) :
  path_join a b =
    if starts_slash b then b
    else if (a =? "")%string then b
    else if ends_slash a then (a ++ b)%string
    else (a ++ "/" ++ b)%string.
Proof.
  unfold path_join, ends_slash. rewrite slash_or_not.
  destruct b as [|c b']; [reflexivity|].
  destruct c as [[] [] [] [] [] [] [] []]; reflexivity.
Qed.

Lemma str_app_assoc (a b c : string) :
  ((a ++ b) ++ c)%string = (a ++ (b ++ c))%string.
Proof. induction a as [|x a IH]; simpl; [reflexivity|now rewrite IH]. Qed.

Lemma str_app_nil_r (a : string) : (a ++ "")%string = a.
Proof. induction a as [|x a IH]; simpl; [reflexivity|now rewrite IH]. Qed.

Lemma has_slash_app (a b : string) :
  has_slash (a ++ b) = has_slash a || has_slash b.
Proof.
  induction a as [|x a IH]; simpl; [reflexivity|].
  now rewrite IH, Bool.orb_assoc.
Qed.

(** What follows the last slash of [a/b], when [b] has none, is [b]. *)
Lemma basename_app (a b : string) :
  has_slash b = false -> basename (a ++ "/" ++ b) = b.
Proof.
  intros Hb. induction a as [|x a IH]; simpl.
  - now rewrite Hb.
  - rewrite has_slash_app. simpl. now rewrite Bool.orb_true_r.
Qed.

Lemma ends_slash_cons (c : ascii) (s : string) :
  ends_slash (String c s) =
    match s with
    | EmptyString => Ascii.eqb c "/"
    | _ => ends_slash s
    end.
Proof.
  unfold ends_slash. destruct s as [|d s']; [reflexivity|].
  cbn [String.length Nat.sub get]. now rewrite Nat.sub_0_r.
Qed.

Lemma ends_slash_app (p m : string) :
  m <> EmptyString -> ends_slash (p ++ m) = ends_slash m.
Proof.
  intros Hm. induction p as [|c p IH]; [reflexivity|].
  simpl. rewrite ends_slash_cons.
  destruct (p ++ m)%string eqn:E; [|exact IH].
  destruct p; simpl in E; [congruence|discriminate].
Qed.

Lemma no_slash_ends (m : string) : has_slash m = false -> ends_slash m = false.
Proof.
  induction m as [|c m IH]; [reflexivity|].
  simpl. intros H. apply Bool.orb_false_iff in H as [Hc Hm].
  rewrite ends_slash_cons. destruct m; [exact Hc|now apply IH].
Qed.

Lemma no_slash_starts (m : string) : has_slash m = false -> starts_slash m = false.
Proof.
  destruct m as [|c m]; [reflexivity|].
  simpl. intros H. now apply Bool.orb_false_iff in H as [Hc _].
Qed.

Lemma path_join_suffix (a b : string) :
  path_join a (b ++ ".pth") = (path_join a b ++ ".pth")%string.
Proof.
  rewrite !path_join_spec.
  destruct b as [|c b'].
  - simpl. destruct (a =? "")%string; [reflexivity|].
    destruct (ends_slash a).
    + now rewrite str_app_nil_r.
    + now rewrite !str_app_assoc.
  - cbn [starts_slash append].
    destruct (Ascii.eqb c "/"); [reflexivity|].
    destruct (a =? "")%string; [reflexivity|].
    destruct (ends_slash a); now rewrite !str_app_assoc.
Qed.

(** The file name of [./face-detection/<name>/config.py]. *)
Lemma setUp_configuration_basename (model_name : string) :
  basename ("./face-detection/" ++ model_name ++ "/config.py") = "config.py".
Proof.
  change ("./face-detection/" ++ model_name ++ "/config.py")%string
    with ("./face-detection/" ++ (model_name ++ "/" ++ "config.py"))%string.
  rewrite <- str_app_assoc. now apply basename_app.
Qed.

(** X19.  For every model name, the configuration file the tests patch is
    [config.py] in the work directory, where [setUp] copied it, and the
    checkpoint [test_quality_metrics] evaluates is the very path [setUp]
    wrote as [resume_from]. *)
Theorem setUp_paths_agree (model_name : string) :
  configuration_file (setUp model_name) =
    path_join (work_dir (setUp model_name)) "config.py" /\
  test_quality_metrics_checkpoint model_name = resume_from (setUp model_name).
Proof.
  unfold test_quality_metrics_checkpoint, setUp.
  cbn [configuration_file work_dir resume_from]. split.
  - now rewrite setUp_configuration_basename.
  - apply path_join_suffix.
Qed.

(** X20.  For a model name that is not empty and has no slash, [setUp]
    works in [/tmp/<name>]: the configuration file is
    [/tmp/<name>/config.py], [resume_from] is [/tmp/<name>/<name>.pth],
    and the file name of the snapshot's URL is [<name>.pth]. *)
Theorem setUp_paths (model_name : string) :
  model_name <> EmptyString ->
  has_slash model_name = false ->
  work_dir (setUp model_name) = ("/tmp/" ++ model_name)%string /\
  configuration_file (setUp model_name) =
    ("/tmp/" ++ model_name ++ "/config.py")%string /\
  resume_from (setUp model_name) =
    ("/tmp/" ++ model_name ++ "/" ++ model_name ++ ".pth")%string /\
  basename (url (setUp model_name)) = (model_name ++ ".pth")%string.
Proof.
  intros Hne Hslash.
  assert (Hwork : path_join "/tmp/" model_name = ("/tmp/" ++ model_name)%string).
  { rewrite path_join_spec, (no_slash_starts _ Hslash). reflexivity. }
  assert (Hin : forall b, has_slash b = false ->
            path_join ("/tmp/" ++ model_name) b =
              ("/tmp/" ++ model_name ++ "/" ++ b)%string).
  { intros b Hb. rewrite path_join_spec, (no_slash_starts _ Hb).
    rewrite ends_slash_app by exact Hne.
    rewrite (no_slash_ends _ Hslash). reflexivity. }
  unfold setUp. cbn [work_dir configuration_file resume_from url].
  rewrite Hwork, setUp_configuration_basename. repeat apply conj.
  - reflexivity.
  - now apply Hin.
  - rewrite (Hin model_name Hslash). now rewrite !str_app_assoc.
  - change ("https://download.01.org/opencv/openvino_training_extensions" ++
            "/models/object_detection/v2/" ++ model_name ++ ".pth")%string
      with ("https://download.01.org/opencv/openvino_training_extensions/models/object_detection/v2"
            ++ "/" ++ (model_name ++ ".pth"))%string.
    apply basename_app. rewrite has_slash_app, Hslash. reflexivity.
Qed.

(** [setUp_paths] for the model [face-detection-0200]. *)
Lemma setUp_paths_witness :
  work_dir (setUp "face-detection-0200") = "/tmp/face-detection-0200" /\
  configuration_file (setUp "face-detection-0200") =
    "/tmp/face-detection-0200/config.py" /\
  resume_from (setUp "face-detection-0200") =
    "/tmp/face-detection-0200/face-detection-0200.pth" /\
  basename (url (setUp "face-detection-0200")) = "face-detection-0200.pth".
Proof.
  apply (setUp_paths "face-detection-0200"); [discriminate|reflexivity].
Defined.

(** ** The tests of the face detection models: get_dependencies *)

Lemma dict_get_set (k k' v : string) (d : Dict) :
  dict_get k (dict_set k' v d) =
    if String.eqb k' k then Some v else dict_get k d.
Proof.
  induction d as [|[k0 v0] d IH]; simpl.
  - reflexivity.
  - destruct (String.eqb k0 k') eqn:E0; simpl.
    + apply String.eqb_eq in E0. subst k0.
      now destruct (String.eqb k' k).
    + destruct (String.eqb k0 k) eqn:E1; [|exact IH].
      destruct (String.eqb k' k) eqn:E2; [|reflexivity].
      apply String.eqb_eq in E1, E2. subst.
      now rewrite String.eqb_refl in E0.
Qed.

Lemma dict_set_keys (k v : string) (d : Dict) :
  map fst (dict_set k v d) =
    if existsb (String.eqb k) (map fst d) then map fst d
    else map fst d ++ [k].
Proof.
  induction d as [|[k0 v0] d IH]; simpl; [reflexivity|].
  rewrite (String.eqb_sym k k0).
  destruct (String.eqb k0 k); simpl; [reflexivity|].
  rewrite IH. now destruct (existsb (String.eqb k) (map fst d)).
Qed.

Lemma dict_set_NoDup (k v : string) (d : Dict) :
  NoDup (map fst d) -> NoDup (map fst (dict_set k v d)).
Proof.
  intros Hd. rewrite dict_set_keys.
  destruct (existsb (String.eqb k) (map fst d)) eqn:E; [exact Hd|].
  apply NoDup_app; [exact Hd|repeat constructor; now intros []|].
  intros x Hx [Hk|[]]. subst x.
  assert (Hex : existsb (String.eqb k) (map fst d) = true).
  { apply existsb_exists. exists k. split; [exact Hx|apply String.eqb_refl]. }
  congruence.
Qed.

(** X18.  In the dictionary [get_dependencies] builds, the key of a
    dependency is its destination up to the first dot, and looking a key
    up gives the source of the last dependency with that key; a key no
    dependency has is missing.  No key occurs twice. *)
Theorem get_dependencies_lookup (dependencies : list Dependency) (k : string) :
  dict_get k (get_dependencies dependencies) =
    option_map source
      (find (fun dependency => String.eqb (before_dot (destination dependency)) k)
            (rev dependencies)) /\
  NoDup (map fst (get_dependencies dependencies)).
Proof.
  unfold get_dependencies.
  induction dependencies as [|d ds IH] using rev_ind; [split; [reflexivity|constructor]|].
  rewrite fold_left_app, rev_app_distr. simpl.
  destruct IH as [IHget IHkeys]. split.
  - rewrite dict_get_set.
    destruct (String.eqb (before_dot (destination d)) k); [reflexivity|exact IHget].
  - now apply dict_set_NoDup.
Qed.

(** ** ThreadedStreamer around a streamer that never returns *)

(** X21.  Around a generator that never returns (a streamer with [loop]),
    the generator of a [ThreadedStreamer] never returns by itself: in no
    execution does its [while] condition fail; only closing it ends the
    iteration. *)
Theorem ThreadedStreamer_loop_never_exhausted (S : Type)
  (inner_next : S -> M (Step S)) (hangs : S -> Heap -> bool)
  (buffer_size : nat) (s0 : S) (h0 : Heap) (st : Sys S) :
  (forall k, finished (fst (run inner_next k s0 h0)) = false) ->
  steps S inner_next hangs buffer_size (start s0 h0) st ->
  consumer st <> Exhausted.
Proof.
  intros Hnever Hsteps Hc.
  destruct (invariant_steps inner_next hangs buffer_size s0 h0 st Hsteps)
    as (_ & Hexh & Hproc).
  destruct (Hexh Hc) as [_ Hdead].
  destruct (process st) as [s h|frame s h| |]; try discriminate.
  - destruct Hproc as (k & r & h & Hrun & Hfin & _).
    specialize (Hnever k). rewrite Hrun in Hnever. simpl in Hnever. congruence.
  - destruct Hproc as [Hc' _]. congruence.
Qed.

(** [ThreadedStreamer_loop_never_exhausted] around the looping video of
    [demo], after the child has taken its first frame. *)
Lemma ThreadedStreamer_loop_never_exhausted_witness :
  consumer
    (mkSys (Putting 1
              (VideoStreamer.set_cap demo_loop_video
                 {| cap_frames := [frame0; frame1; frame2]; cap_pos := 1 |})
              [frame0; bgr2rgb frame0])
           [] Testing [] []) <> Exhausted.
Proof.
  apply (ThreadedStreamer_loop_never_exhausted VideoStreamer.gen
           VideoStreamer.next never_hangs 2 demo_loop_video []).
  - intros k. now apply VideoStreamer_never_returns.
  - eapply steps_snoc; [apply steps_refl|].
    apply p_yield; reflexivity.
Defined.
